(** * packer-post-processor-shell: configuration validation and script runner

    A shallow embedding of [shell/post-processor.go] (the [Configure] and
    [PostProcess] methods of [ShellPostProcessor]) and of the two artifact
    implementations of the repository, followed by the properties the
    specification states about them.

    Conventions of the embedding.
    - Go strings are [string]; a Go slice of strings is [option (list string)],
      [None] being the nil slice, because the code tells nil from empty
      ([p.config.Inline == nil]).
    - A Go [error] that comes from outside this package (decoding, template
      rendering, the operating system) is carried by its message, which is all
      the code does with it ([%s]).
    - The file system is a finite map from paths to contents.  Everything the
      code cannot decide by itself (the name [ioutil.TempFile] picks, whether
      a write to disk fails, what a spawned process does) is an oracle of the
      class [Host]; the packer libraries the code calls are the classes
      [Interpolate] and [Decoder].
    - [PostProcess] runs in a small state-and-early-return monad; the state
      holds the world, the messages sent to the [packer.Ui] and the two
      [bytes.Buffer]s. *)

From Stdlib Require Import Ascii.
From stdpp Require Import base strings list gmap pretty.

(** ** Strings *)

(** [strings.SplitN(s, sep, 2)] for a one-character separator: the string is
    cut at the first occurrence of the separator, if there is one. *)
Fixpoint cut (sep : ascii) (s : string) : option (string * string) :=
  match s with
  | EmptyString => None
  | String c s' =>
      if Ascii.eqb c sep then Some (EmptyString, s')
      else match cut sep s' with
           | Some (a, b) => Some (String c a, b)
           | None => None
           end
  end.

Definition strings_SplitN2 (s : string) (sep : ascii) : list string :=
  match cut sep s with
  | Some (a, b) => [a; b]
  | None => [s]
  end.

(** The first [n] bytes of a string and what follows them ([s[:n]], [s[n:]]
    clamped to the length). *)
Fixpoint str_take (n : nat) (s : string) : string :=
  match n, s with
  | S k, String c s' => String c (str_take k s')
  | _, _ => EmptyString
  end.

Fixpoint str_drop (n : nat) (s : string) : string :=
  match n, s with
  | S k, String _ s' => str_drop k s'
  | _, _ => s
  end.

(** [sub] occurs in [s] (the meaning of "the message contains ..."). *)
Definition contains (s sub : string) : Prop :=
  exists pre post : string, s = pre +:+ sub +:+ post.

(** ** Go slices *)

Definition elems {A : Type} (s : option (list A)) : list A := default [] s.
Definition len {A : Type} (s : option (list A)) : nat := length (elems s).
Definition is_nil {A : Type} (s : option (list A)) : bool :=
  match s with None => true | Some _ => false end.

(** ** Errors *)

(** [errors.New] / [fmt.Errorf] values and [packer.MultiError]. *)
#[warnings="-register-all"]
Inductive error : Type :=
  | errorString (msg : string)
  | MultiError (Errors : list error).

(** [packer.MultiErrorAppend] on a non-nil [*MultiError]: the new error goes
    to the end of [Errors]. *)
Definition MultiErrorAppend (errs : list error) (e : error) : list error :=
  errs ++ [e].

(** ** The world outside the process *)

(** An [exec.Cmd] as the code fills it in. *)
Record Cmd : Type := mkCmd {
  cmd_Path : string;
  cmd_Args : list string;
  cmd_Env : list string
}.

(** What running a command did: the file system it left, what it wrote to its
    two output streams, and the error [cmd.Run] returns (spawn failure or
    non-zero exit), if any. *)
Record ProcResult : Type := mkProcResult {
  pr_fs : gmap string string;
  pr_stdout : string;
  pr_stderr : string;
  pr_err : option string
}.

(** The file system and the record of the commands run so far. *)
Record World : Type := mkWorld {
  fs : gmap string string;
  execs : list (Cmd * ProcResult)
}.

Class Host : Type := {
  (** the name [ioutil.TempFile(dir, prefix)] creates, or its error *)
  host_TempFile : World -> string -> string -> string + string;
  (** a write of [data] to the open file [path]: bytes written and error *)
  host_Write : World -> string -> string -> nat * option string;
  (** the behaviour of a spawned process *)
  host_Run : World -> Cmd -> ProcResult
}.

Definition set_fs (f : gmap string string) (w : World) : World :=
  {| fs := f; execs := execs w |}.

(** [os.Stat] and [os.Open] fail on a path that is not there. *)
Definition os_Stat (w : World) (path : string) : option string :=
  match fs w !! path with
  | Some _ => None
  | None => Some ("stat " +:+ path +:+ ": no such file or directory")
  end.

Definition os_Open (w : World) (path : string) : option string :=
  match fs w !! path with
  | Some _ => None
  | None => Some ("open " +:+ path +:+ ": no such file or directory")
  end.

(** [os.Remove]: the file is unlinked; removing what is not there is an
    error and changes nothing. *)
Definition os_Remove (path : string) (w : World) : World * option string :=
  match fs w !! path with
  | Some _ => (set_fs (delete path (fs w)) w, None)
  | None => (w, Some ("remove " +:+ path +:+ ": no such file or directory"))
  end.

Arguments os_Remove : simpl never.

(** [ioutil.TempFile]: on success the file exists and is empty. *)
Definition ioutil_TempFile `{Host} (dir pfx : string) (w : World)
  : World * (string + string) :=
  match host_TempFile w dir pfx with
  | inl name => (set_fs (<[name := EmptyString]> (fs w)) w, inl name)
  | inr e => (w, inr e)
  end.

(** [Write] on an [os.File]: the bytes that made it are appended to the file; a
    short write without an error is reported as one, as [bufio] does. *)
Definition File_Write `{Host} (path data : string) (w : World)
  : World * option string :=
  let '(n, e) := host_Write w path data in
  let old := default EmptyString (fs w !! path) in
  let w' := set_fs (<[path := old +:+ str_take n data]> (fs w)) w in
  match e with
  | Some msg => (w', Some msg)
  | None => if n <? String.length data then (w', Some "short write") else (w', None)
  end.

(** ** [bufio.Writer]

    A contract-level model: bytes are kept in the buffer while they fit in
    its 4096 bytes and are pushed to the file when they do not, or on
    [Flush]; the first error sticks, and nothing is written after it. *)
Record Writer : Type := mkWriter {
  wr_file : string;
  wr_buf : string;
  wr_err : option string
}.

Definition defaultBufSize : nat := 4096.

Definition bufio_NewWriter (path : string) : Writer :=
  {| wr_file := path; wr_buf := EmptyString; wr_err := None |}.

Definition Flush `{Host} (b : Writer) (w : World) : Writer * World * option string :=
  match wr_err b with
  | Some e => (b, w, Some e)
  | None =>
      match wr_buf b with
      | EmptyString => (b, w, None)
      | _ =>
          match File_Write (wr_file b) (wr_buf b) w with
          | (w', Some e) =>
              ({| wr_file := wr_file b; wr_buf := wr_buf b; wr_err := Some e |}, w', Some e)
          | (w', None) =>
              ({| wr_file := wr_file b; wr_buf := EmptyString; wr_err := None |}, w', None)
          end
      end
  end.

Definition WriteString `{Host} (s : string) (b : Writer) (w : World)
  : Writer * World * option string :=
  match wr_err b with
  | Some e => (b, w, Some e)
  | None =>
      let b' := {| wr_file := wr_file b; wr_buf := wr_buf b +:+ s; wr_err := None |} in
      if String.length (wr_buf b) + String.length s <=? defaultBufSize
      then (b', w, None)
      else Flush b' w
  end.

(** ** The packer interfaces the plugin is written against *)

Module packer.

(** [packer.Artifact]. [Destroy] acts on the file system and may fail. *)
Class Artifact (A : Type) : Type := {
  BuilderId : A -> string;
  Files : A -> list string;
  Id : A -> string;
  String' : A -> string;
  State : A -> string -> option string;
  Destroy : A -> World -> World * option string
}.

(** The two calls the code makes on a [packer.Ui]. *)
Inductive UiEvent : Type :=
  | Say (msg : string)
  | Message (msg : string).

End packer.

(** [common.PackerConfig] is squashed into [Config]; of its fields the code
    reads [PackerBuildName] and [PackerBuilderType]. [ctx] is the
    [interpolate.Context]. *)
Record Config (Ctx : Type) : Type := mkConfig {
  PackerBuildName : string;
  PackerBuilderType : string;
  Inline : option (list string);
  InlineShebang : string;
  Script : string;
  Vars : option (list string);
  Scripts : option (list string);
  TargetPath : string;
  KeepInputArtifact : bool;
  ctx : Ctx
}.

Arguments mkConfig {Ctx}.
Arguments PackerBuildName {Ctx}.
Arguments PackerBuilderType {Ctx}.
Arguments Inline {Ctx}.
Arguments InlineShebang {Ctx}.
Arguments Script {Ctx}.
Arguments Vars {Ctx}.
Arguments Scripts {Ctx}.
Arguments TargetPath {Ctx}.
Arguments KeepInputArtifact {Ctx}.
Arguments ctx {Ctx}.

(** [interpolate.Render] returns a string and an error; [interpolate.Validate]
    returns an error. *)
Class Interpolate (Ctx : Type) : Type := {
  Render : string -> Ctx -> string * option string;
  Validate : string -> Ctx -> option string
}.

(** [config.Decode] fills the configuration in place from the raw fragments. *)
Class Decoder (Raw Ctx : Type) : Type := {
  Decode : Config Ctx -> list Raw -> Config Ctx * option string
}.

(** ** [artifact.go], package [main] *)

Module main.

Record Artifact : Type := mkArtifact {
  builderId : string;
  files : list string;
  id : string;
  str : string
}.

Definition NewArtifact {A : Type} `{packer.Artifact A} (artifact : A) : Artifact :=
  {| builderId := packer.BuilderId artifact;
     files := packer.Files artifact;
     id := packer.Id artifact;
     str := packer.String' artifact |}.

#[export] Instance Artifact_impl : packer.Artifact Artifact := {|
  packer.BuilderId a := builderId a;
  packer.Files a := files a;
  packer.Id a := id a;
  packer.String' a := str a;
  packer.State a _ := None;
  packer.Destroy a w := (w, None)
|}.

End main.

(** ** Package [shell] *)

Module shell.

(** *** The artifact of the post-processor *)

Record Artifact : Type := mkArtifact {
  Path : string;
  BuilderId : string;
  Provider : string
}.

(** The constructor takes [builderId] and does not store it: the field keeps
    its zero value. *)
Definition NewArtifact (provider builderId path : string) : Artifact :=
  {| Path := path; BuilderId := EmptyString; Provider := provider |}.

#[export] Instance Artifact_impl : packer.Artifact Artifact := {|
  packer.BuilderId a := BuilderId a;
  packer.Files a := [Path a];
  packer.Id a := Provider a;
  packer.String' a := "'" +:+ Provider a +:+ "' provider box: " +:+ Path a;
  packer.State a _ := None;
  packer.Destroy a w := os_Remove (Path a) w
|}.

Record ShellPostProcessor (Ctx : Type) : Type := mkShellPostProcessor {
  config : Config Ctx
}.

Arguments mkShellPostProcessor {Ctx}.
Arguments config {Ctx}.

(** Go leaves the iteration order of a map open; the two maps [Configure]
    ranges over have two and three keys. *)
Inductive TemplateKey : Type := k_inline_shebang | k_script.
Inductive SliceKey : Type := k_inline | k_scripts | k_environment_vars.

Inductive TemplatesOrder : Type :=
  | shebang_script
  | script_shebang.

Inductive SlicesOrder : Type :=
  | inline_scripts_vars
  | inline_vars_scripts
  | scripts_inline_vars
  | scripts_vars_inline
  | vars_inline_scripts
  | vars_scripts_inline.

Definition templates_keys (o : TemplatesOrder) : list TemplateKey :=
  match o with
  | shebang_script => [k_inline_shebang; k_script]
  | script_shebang => [k_script; k_inline_shebang]
  end.

Definition slices_keys (o : SlicesOrder) : list SliceKey :=
  match o with
  | inline_scripts_vars => [k_inline; k_scripts; k_environment_vars]
  | inline_vars_scripts => [k_inline; k_environment_vars; k_scripts]
  | scripts_inline_vars => [k_scripts; k_inline; k_environment_vars]
  | scripts_vars_inline => [k_scripts; k_environment_vars; k_inline]
  | vars_inline_scripts => [k_environment_vars; k_inline; k_scripts]
  | vars_scripts_inline => [k_environment_vars; k_scripts; k_inline]
  end.

Definition template_name (k : TemplateKey) : string :=
  match k with
  | k_inline_shebang => "inline_shebang"
  | k_script => "script"
  end.

Definition slice_name (k : SliceKey) : string :=
  match k with
  | k_inline => "inline"
  | k_scripts => "scripts"
  | k_environment_vars => "environment_vars"
  end.

Definition nl : string := String "010"%char EmptyString.

Section Config.

Context {Ctx : Type}.

Definition set_InlineShebang (v : string) (c : Config Ctx) : Config Ctx :=
  mkConfig (PackerBuildName c) (PackerBuilderType c) (Inline c) v (Script c)
           (Vars c) (Scripts c) (TargetPath c) (KeepInputArtifact c) (ctx c).

Definition set_Script (v : string) (c : Config Ctx) : Config Ctx :=
  mkConfig (PackerBuildName c) (PackerBuilderType c) (Inline c) (InlineShebang c) v
           (Vars c) (Scripts c) (TargetPath c) (KeepInputArtifact c) (ctx c).

Definition set_Inline (v : option (list string)) (c : Config Ctx) : Config Ctx :=
  mkConfig (PackerBuildName c) (PackerBuilderType c) v (InlineShebang c) (Script c)
           (Vars c) (Scripts c) (TargetPath c) (KeepInputArtifact c) (ctx c).

Definition set_Vars (v : option (list string)) (c : Config Ctx) : Config Ctx :=
  mkConfig (PackerBuildName c) (PackerBuilderType c) (Inline c) (InlineShebang c) (Script c)
           v (Scripts c) (TargetPath c) (KeepInputArtifact c) (ctx c).

Definition set_Scripts (v : option (list string)) (c : Config Ctx) : Config Ctx :=
  mkConfig (PackerBuildName c) (PackerBuilderType c) (Inline c) (InlineShebang c) (Script c)
           (Vars c) v (TargetPath c) (KeepInputArtifact c) (ctx c).

(** The pointers held by the map [templates] and the slices held by
    [sliceTemplates]. *)
Definition get_template (k : TemplateKey) (c : Config Ctx) : string :=
  match k with
  | k_inline_shebang => InlineShebang c
  | k_script => Script c
  end.

Definition set_template (k : TemplateKey) (v : string) (c : Config Ctx) : Config Ctx :=
  match k with
  | k_inline_shebang => set_InlineShebang v c
  | k_script => set_Script v c
  end.

Definition get_slice (k : SliceKey) (c : Config Ctx) : option (list string) :=
  match k with
  | k_inline => Inline c
  | k_scripts => Scripts c
  | k_environment_vars => Vars c
  end.

Definition set_slice (k : SliceKey) (v : option (list string)) (c : Config Ctx) : Config Ctx :=
  match k with
  | k_inline => set_Inline v c
  | k_scripts => set_Scripts v c
  | k_environment_vars => set_Vars v c
  end.

End Config.

(** *** [Configure] *)

Section Configure.

Context {Ctx Raw : Type} `{!Interpolate Ctx} `{!Decoder Raw Ctx}.

(** One turn of [for n, ptr := range templates]. *)
Definition render_template (st : Config Ctx * list error) (k : TemplateKey)
  : Config Ctx * list error :=
  let '(c, errs) := st in
  let '(v, err) := Render (get_template k c) (ctx c) in
  let c := set_template k v c in
  match err with
  | Some e =>
      (c, MultiErrorAppend errs
            (errorString ("Error processing " +:+ template_name k +:+ ": " +:+ e)))
  | None => (c, errs)
  end.

(** [for i, elem := range slice], from index [i] on: the elements are
    replaced in place by what [Render] returns. *)
Fixpoint render_elems (n : string) (i : nat) (slice : list string) (cx : Ctx)
    (errs : list error) : list string * list error :=
  match slice with
  | [] => ([], errs)
  | elem :: rest =>
      let '(v, err) := Render elem cx in
      let errs :=
        match err with
        | Some e =>
            MultiErrorAppend errs
              (errorString ("Error processing " +:+ n +:+ "[" +:+ pretty i +:+ "]: " +:+ e))
        | None => errs
        end in
      let '(rest', errs) := render_elems n (S i) rest cx errs in
      (v :: rest', errs)
  end.

(** One turn of [for n, slice := range sliceTemplates]; a nil slice has no
    elements and stays nil. *)
Definition render_slice (st : Config Ctx * list error) (k : SliceKey)
  : Config Ctx * list error :=
  let '(c, errs) := st in
  match get_slice k c with
  | None => (c, errs)
  | Some slice =>
      let '(slice', errs) := render_elems (slice_name k) 0 slice (ctx c) errs in
      (set_slice k (Some slice') c, errs)
  end.

Definition check_script (w : World) (errs : list error) (path : string) : list error :=
  match os_Stat w path with
  | Some e =>
      MultiErrorAppend errs (errorString ("Bad script '" +:+ path +:+ "': " +:+ e))
  | None => errs
  end.

(** [len(vs) != 2 || vs[0] == ""] for [vs := strings.SplitN(kv, "=", 2)]. *)
Definition bad_env_var (kv : string) : bool :=
  let vs := strings_SplitN2 kv "="%char in
  negb (length vs =? 2) || String.eqb (hd EmptyString vs) EmptyString.

Definition check_env_var (errs : list error) (kv : string) : list error :=
  if bad_env_var kv
  then MultiErrorAppend errs
         (errorString ("Environment variable not in format 'key=value': " +:+ kv))
  else errs.

(** The checks of [Configure] after a successful [Decode]: the configuration
    as the method leaves it and the [Errors] of [errs]. *)
Definition validate (to : TemplatesOrder) (so : SlicesOrder) (w : World)
    (c : Config Ctx) : Config Ctx * list error :=
  let errs : list error := [] in
  let c := if String.eqb (InlineShebang c) EmptyString
           then set_InlineShebang "/bin/sh" c else c in
  let c := match Scripts c with None => set_Scripts (Some []) c | Some _ => c end in
  let c := match Vars c with None => set_Vars (Some []) c | Some _ => c end in
  let errs :=
    if negb (String.eqb (Script c) EmptyString) && (0 <? len (Scripts c))
    then MultiErrorAppend errs
           (errorString "Only one of script or scripts can be specified.")
    else errs in
  let c := if negb (String.eqb (Script c) EmptyString)
           then set_Scripts (Some [Script c]) c else c in
  let errs :=
    match Validate (TargetPath c) (ctx c) with
    | Some e =>
        MultiErrorAppend errs (errorString ("Error parsing target template: " +:+ e))
    | None => errs
    end in
  let '(c, errs) := foldl render_template (c, errs) (templates_keys to) in
  let '(c, errs) := foldl render_slice (c, errs) (slices_keys so) in
  let errs :=
    if (len (Scripts c) =? 0) && is_nil (Inline c)
    then MultiErrorAppend errs
           (errorString "Either a script file or inline script must be specified.")
    else if (0 <? len (Scripts c)) && negb (is_nil (Inline c))
    then MultiErrorAppend errs
           (errorString "Only a script file or an inline script can be specified, not both.")
    else errs in
  let errs := foldl (check_script w) errs (elems (Scripts c)) in
  let errs := foldl check_env_var errs (elems (Vars c)) in
  (c, errs).

(** [Configure]: the receiver's configuration is updated in place, so the
    method returns the receiver with the error. *)
Definition Configure (to : TemplatesOrder) (so : SlicesOrder) (w : World)
    (p : ShellPostProcessor Ctx) (raws : list Raw)
  : ShellPostProcessor Ctx * option error :=
  let '(c, err) := Decode (config p) raws in
  match err with
  | Some e => (mkShellPostProcessor c, Some (errorString e))
  | None =>
      let '(c, errs) := validate to so w c in
      (mkShellPostProcessor c,
       match errs with
       | [] => None
       | _ :: _ => Some (MultiError errs)
       end)
  end.

End Configure.

(** *** The monad of [PostProcess]

    The state is what the method can change: the world, what was said to the
    [ui], and the two output buffers.  A computation either goes on with a
    value or leaves the method through a [return] statement, with the three
    values that statement gives. *)

Record St : Type := mkSt {
  st_world : World;
  st_ui : list packer.UiEvent;
  st_stdout : string;
  st_stderr : string
}.

(** The three values of [(packer.Artifact, bool, error)]; the artifact and
    the error may be nil. *)
Definition Returned : Type := (option Artifact * bool * option error)%type.

Inductive res (A : Type) : Type :=
  | Next (a : A)
  | Return (v : Returned).

Arguments Next {A}.
Arguments Return {A}.

Definition M (A : Type) : Type := St -> St * res A.

Definition ret {A : Type} (a : A) : M A := fun s => (s, Next a).

Definition bind {A B : Type} (m : M A) (k : A -> M B) : M B :=
  fun s =>
    match m s with
    | (s', Next a) => k a s'
    | (s', Return v) => (s', Return v)
    end.

Definition return_ {A : Type} (v : Returned) : M A := fun s => (s, Return v).

Notation "x <- m ;; k" := (bind m (fun x => k))
  (at level 100, m at next level, right associativity).
Notation "m ;;; k" := (bind m (fun _ => k))
  (at level 100, right associativity).

Definition set_world (w : World) (s : St) : St :=
  mkSt w (st_ui s) (st_stdout s) (st_stderr s).

(** An operation of the operating system, run on the world of the state. *)
Definition os {A : Type} (f : World -> World * A) : M A :=
  fun s => let '(w, a) := f (st_world s) in (set_world w s, Next a).

(** [defer cleanup()] followed by [body]: the clean-up runs when the method
    is left, whichever way; what it returns is dropped. *)
Definition defer {A B : Type} (cleanup : World -> World * B) (body : M A) : M A :=
  fun s =>
    let '(s', r) := body s in
    (set_world (fst (cleanup (st_world s'))) s', r).

Fixpoint for_each {A : Type} (l : list A) (body : A -> M unit) : M unit :=
  match l with
  | [] => ret tt
  | x :: rest => body x ;;; for_each rest body
  end.

Definition ui_Say (msg : string) : M unit :=
  fun s => (mkSt (st_world s) (st_ui s ++ [packer.Say msg]) (st_stdout s) (st_stderr s), Next tt).

Definition ui_Message (msg : string) : M unit :=
  fun s => (mkSt (st_world s) (st_ui s ++ [packer.Message msg]) (st_stdout s) (st_stderr s), Next tt).

Definition stderr_Reset : M unit :=
  fun s => (mkSt (st_world s) (st_ui s) (st_stdout s) EmptyString, Next tt).

Definition stdout_Reset : M unit :=
  fun s => (mkSt (st_world s) (st_ui s) EmptyString (st_stderr s), Next tt).

Definition stderr_String : M string := fun s => (s, Next (st_stderr s)).
Definition stdout_String : M string := fun s => (s, Next (st_stdout s)).

(** [exec.Command(name, args...)]. *)
Definition exec_Command (name : string) (args : list string) : Cmd :=
  {| cmd_Path := name; cmd_Args := name :: args; cmd_Env := [] |}.

Definition with_Env (env : list string) (cmd : Cmd) : Cmd :=
  {| cmd_Path := cmd_Path cmd; cmd_Args := cmd_Args cmd; cmd_Env := env |}.

(** [fmt.Errorf] with a format that ends in [%s]. *)
Definition fmt_Errorf (pfx arg : string) : error := errorString (pfx +:+ arg).

Section PostProcess.

Context `{!Host} {Ctx : Type}.

(** [cmd.Run()] with [cmd.Stdout = &stdout] and [cmd.Stderr = &stderr]: the
    process is run, recorded, and its output goes to the end of the buffers. *)
Definition cmd_Run (cmd : Cmd) : M (option string) :=
  fun s =>
    let w := st_world s in
    let r := host_Run w cmd in
    (mkSt {| fs := pr_fs r; execs := execs w ++ [(cmd, r)] |}
          (st_ui s)
          (st_stdout s +:+ pr_stdout r)
          (st_stderr s +:+ pr_stderr r),
     Next (pr_err r)).

Definition writer_WriteString (s : string) (b : Writer) : M (Writer * option string) :=
  os (fun w => let '(b', w', e) := WriteString s b w in (w', (b', e))).

Definition writer_Flush (b : Writer) : M (Writer * option string) :=
  os (fun w => let '(b', w', e) := Flush b w in (w', (b', e))).

(** [for _, command := range p.config.Inline]. *)
Fixpoint write_commands (keep : bool) (commands : list string) (writer : Writer)
  : M Writer :=
  match commands with
  | [] => ret writer
  | command :: rest =>
      r <- writer_WriteString (command +:+ nl) writer ;;
      match snd r with
      | Some err =>
          return_ (None, keep, Some (fmt_Errorf "Error preparing shell script: " err))
      | None => write_commands keep rest (fst r)
      end
  end.

(** "Write our contents to it": the writer on the temporary file [tf], the
    shebang line (its result is not looked at), the commands, [Flush] and
    [tf.Close()]. *)
Definition write_inline_script (keep : bool) (tf shebang : string)
    (inline : list string) : M unit :=
  let writer := bufio_NewWriter tf in
  r <- writer_WriteString ("#!" +:+ shebang +:+ nl) writer ;;
  writer <- write_commands keep inline (fst r) ;;
  r <- writer_Flush writer ;;
  match snd r with
  | Some err =>
      return_ (None, keep, Some (fmt_Errorf "Error preparing shell script: " err))
  | None => ret tt
  end.

(** The body of the inner loop, for the file [art] and the script [path].
    [defer f.Close()] has no effect on the model: open files are not part
    of the world. *)
Definition run_script (keep : bool) (envVars : list string) (art path : string)
  : M unit :=
  stderr_Reset ;;;
  stdout_Reset ;;;
  ui_Say ("Process with shell script: " +:+ path) ;;;
  oerr <- os (fun w => (w, os_Open w path)) ;;
  match oerr with
  | Some err =>
      return_ (None, keep, Some (fmt_Errorf "Error opening shell script: " err))
  | None =>
      ui_Message ("Executing script with artifact: " +:+ art) ;;;
      let args := [path; art] in
      let cmd := with_Env envVars (exec_Command "/bin/sh" args) in
      err <- cmd_Run cmd ;;
      out <- stdout_String ;;
      ui_Message out ;;;
      match err with
      | Some _ =>
          msg <- stderr_String ;;
          return_ (None, keep, Some (fmt_Errorf "Unable to execute script: " msg))
      | None => ret tt
      end
  end.

(** [name] and [outputPath] are used by the last [return] of [PostProcess]
    and declared nowhere in the package: they are parameters here. *)
Variables name outputPath : string.

(** From [envVars := make(...)] to the last [return]. *)
Definition run_all {A : Type} `{!packer.Artifact A} (keep : bool) (c : Config Ctx)
    (scripts : list string) (artifact : A) : M Returned :=
  let envVars :=
    ("PACKER_BUILD_NAME=" +:+ PackerBuildName c)
      :: ("PACKER_BUILDER_TYPE=" +:+ PackerBuilderType c)
      :: elems (Vars c) in
  let files := packer.Files artifact in
  for_each files (fun art =>
    for_each scripts (fun path => run_script keep envVars art path)) ;;;
  return_ (Some (NewArtifact name (packer.BuilderId artifact) outputPath), keep, None).

(** The statements of the method. *)
Definition PostProcess_body {A : Type} `{!packer.Artifact A}
    (p : ShellPostProcessor Ctx) (artifact : A) : M Returned :=
  let keep := KeepInputArtifact (config p) in
  let scripts := elems (Scripts (config p)) in
  match Inline (config p) with
  | Some inline =>
      r <- os (ioutil_TempFile EmptyString "packer-shell") ;;
      match r with
      | inr err =>
          return_ (None, keep, Some (fmt_Errorf "Error preparing shell script: " err))
      | inl tf =>
          defer (os_Remove tf)
            (let scripts := scripts ++ [tf] in
             write_inline_script keep tf (InlineShebang (config p)) inline ;;;
             run_all keep (config p) scripts artifact)
      end
  | None => run_all keep (config p) scripts artifact
  end.

(** What a call of [PostProcess] returns, with the world and the [ui] as it
    leaves them. *)
Record Result : Type := mkResult {
  r_artifact : option Artifact;
  r_keep : bool;
  r_err : option error;
  r_world : World;
  r_ui : list packer.UiEvent
}.

(** The buffers [stderr] and [stdout] are locals of the call and start
    empty. *)
Definition PostProcess {A : Type} `{!packer.Artifact A}
    (p : ShellPostProcessor Ctx) (ui : list packer.UiEvent) (artifact : A)
    (w : World) : Result :=
  let '(s, r) := PostProcess_body p artifact (mkSt w ui EmptyString EmptyString) in
  let '(a, keep, err) := match r with Next v => v | Return v => v end in
  mkResult a keep err (st_world s) (st_ui s).

End PostProcess.

End shell.

Import (hints) main.
Import shell.

(** ** A concrete host, for running the model

    Temporary files get one fixed name, writes to disk succeed, and a process
    succeeds silently unless the script it is given is [/tmp/fail.sh], which
    writes [boom] to its standard error and exits with status 1.  The
    templates are rendered as they are, except the unterminated action
    [{{], which is an error; the raw fragments are configurations, the last
    one winning. *)

Module demo.

Definition tmp : string := "/tmp/packer-shell042".

Definition run (w : World) (cmd : Cmd) : ProcResult :=
  if bool_decide (cmd_Args cmd !! 1 = Some "/tmp/fail.sh")
  then {| pr_fs := fs w; pr_stdout := ""; pr_stderr := "boom";
          pr_err := Some "exit status 1" |}
  else {| pr_fs := fs w; pr_stdout := ""; pr_stderr := ""; pr_err := None |}.

Definition host : Host := {|
  host_TempFile _ _ _ := inl tmp;
  host_Write _ _ data := (String.length data, None);
  host_Run := run
|}.

Definition interpolate : Interpolate unit := {|
  Render s _ := if String.eqb s "{{" then ("", Some "unexpected EOF") else (s, None);
  Validate s _ := if String.eqb s "{{" then Some "unexpected EOF" else None
|}.

Definition decoder : Decoder (Config unit) unit := {|
  Decode c raws := (List.last raws c, None)
|}.

Definition world : World := {|
  fs := {[ "/tmp/s1.sh" := "true"; "/tmp/s2.sh" := "true";
           "/tmp/fail.sh" := "echo boom >&2; exit 1";
           "/tmp/x.box" := "x"; "/tmp/y.box" := "y" ]};
  execs := []
|}.

Definition artifact : main.Artifact := {|
  main.builderId := "mitchellh.virtualbox";
  main.files := ["/tmp/x.box"; "/tmp/y.box"];
  main.id := "x";
  main.str := "VM files"
|}.

Definition one_file : main.Artifact := {|
  main.builderId := "mitchellh.virtualbox";
  main.files := ["/tmp/x.box"];
  main.id := "x";
  main.str := "VM files"
|}.

Definition cfg (inline : option (list string)) (script : string)
    (scripts vars : option (list string)) : Config unit := {|
  PackerBuildName := "b"; PackerBuilderType := "virtualbox-iso";
  Inline := inline; InlineShebang := ""; Script := script;
  Vars := vars; Scripts := scripts;
  TargetPath := ""; KeepInputArtifact := true; ctx := tt
|}.

Definition pp (c : Config unit) : ShellPostProcessor unit := mkShellPostProcessor c.

End demo.

(** * The vocabulary of the properties *)

(** ** Return statements *)

(** Every [return] statement a computation can be left through gives values
    that satisfy [P]. *)
Definition returns {A : Type} (P : Returned -> Prop) (m : M A) : Prop :=
  forall s s' v, m s = (s', Return v) -> P v.

(** A computation that yields the values of the method: they satisfy [P]
    however it ends. *)
Definition finishes (P : Returned -> Prop) (m : M Returned) : Prop :=
  forall s s' r, m s = (s', r) -> P (match r with Next v => v | Return v => v end).

(** ** The inline script *)

(** The text of the script, as the specification gives it: the line [#!]
    with the shebang, then the commands, one per line. *)
Definition lines (commands : list string) : string :=
  foldr (fun command acc => command +:+ nl +:+ acc) "" commands.

Definition script_text (shebang : string) (inline : list string) : string :=
  "#!" +:+ shebang +:+ nl +:+ lines inline.

(** The writer [b] on the file [tf] has been given [acc] so far: unless an
    error has struck, the file followed by the buffer is [acc]. *)
Definition written (tf : string) (b : Writer) (w : World) (acc : string) : Prop :=
  wr_file b = tf
  /\ (wr_err b = None ->
      exists content, fs w !! tf = Some content /\ content +:+ wr_buf b = acc).

(** ** The commands run *)

(** The invocation the specification describes for a file and a script:
    [/bin/sh <script-path> <file-path>] with the assembled environment. *)
Definition sh_cmd (envVars : list string) (art path : string) : Cmd :=
  {| cmd_Path := "/bin/sh"; cmd_Args := ["/bin/sh"; path; art]; cmd_Env := envVars |}.

(** The pairs of a file and a script, file-major. *)
Definition pairs (files scripts : list string) : list (string * string) :=
  flat_map (fun art => map (fun path => (art, path)) scripts) files.

(** The commands run between the world [w] and the later world [w']. *)
Definition invocations (w w' : World) : list Cmd :=
  map fst (drop (length (execs w)) (execs w')).

(** How a run over a list of pairs can end, with the commands it has run:
    all pairs done, a script that could not be opened, or a process that
    failed; in the last two cases the remaining pairs are not touched. *)
Inductive ran (keep : bool) (envVars : list string)
  : list (string * string) -> list (Cmd * ProcResult) -> res unit -> Prop :=
  | ran_done :
      ran keep envVars [] [] (Next tt)
  | ran_open_failed art path jobs e :
      ran keep envVars ((art, path) :: jobs) []
          (Return (None, keep, Some (fmt_Errorf "Error opening shell script: " e)))
  | ran_failed art path jobs pr :
      pr_err pr <> None ->
      ran keep envVars ((art, path) :: jobs) [(sh_cmd envVars art path, pr)]
          (Return (None, keep,
                   Some (fmt_Errorf "Unable to execute script: " (pr_stderr pr))))
  | ran_next art path jobs pr new r :
      pr_err pr = None ->
      ran keep envVars jobs new r ->
      ran keep envVars ((art, path) :: jobs) ((sh_cmd envVars art path, pr) :: new) r.

Section Vocabulary.

Context `{!Host} {Ctx : Type}.
Context {A : Type} `{!packer.Artifact A}.

Variables name outputPath : string.

(** The environment of the spawned processes: the two fixed entries, then
    the configured variables. *)
Definition envVars_of (c : Config Ctx) : list string :=
  ["PACKER_BUILD_NAME=" +:+ PackerBuildName c;
   "PACKER_BUILDER_TYPE=" +:+ PackerBuilderType c] ++ elems (Vars c).

(** The resolved script list: the configured scripts, then the temporary
    inline script when inline commands are configured and the file could be
    created. *)
Definition resolved_scripts (p : ShellPostProcessor Ctx) (w : World) : list string :=
  elems (Scripts (config p))
  ++ match Inline (config p) with
     | Some _ =>
         match host_TempFile w "" "packer-shell" with
         | inl tf => [tf]
         | inr _ => []
         end
     | None => []
     end.

(** The values of the last [return]. *)
Definition success (p : ShellPostProcessor Ctx) (artifact : A) : Returned :=
  (Some (NewArtifact name (packer.BuilderId artifact) outputPath),
   KeepInputArtifact (config p), None).

Definition value (r : res Returned) : Returned :=
  match r with Next v => v | Return v => v end.

End Vocabulary.

(** ** The rules of [Configure] *)

Section Rules.

Context {Ctx : Type} `{!Interpolate Ctx}.

(** The rules of the validation, each with the errors it contributes, read
    off the decoded configuration [c]. *)

(** The shebang after defaulting, and the script list after a single script
    has been turned into a one-element list. *)
Definition shebang0 (c : Config Ctx) : string :=
  if String.eqb (InlineShebang c) "" then "/bin/sh" else InlineShebang c.

Definition scripts0 (c : Config Ctx) : list string :=
  if negb (String.eqb (Script c) "") then [Script c] else elems (Scripts c).

Definition rendered (cx : Ctx) (l : list string) : list string :=
  map (fun elem => fst (Render elem cx)) l.

Definition template0 (c : Config Ctx) (k : TemplateKey) : string :=
  match k with
  | k_inline_shebang => shebang0 c
  | k_script => Script c
  end.

Definition slice0 (c : Config Ctx) (k : SliceKey) : option (list string) :=
  match k with
  | k_inline => Inline c
  | k_scripts => Some (scripts0 c)
  | k_environment_vars => Some (elems (Vars c))
  end.

Definition only_one_error : error :=
  errorString "Only one of script or scripts can be specified.".
Definition either_error : error :=
  errorString "Either a script file or inline script must be specified.".
Definition not_both_error : error :=
  errorString "Only a script file or an inline script can be specified, not both.".
Definition target_error (e : string) : error :=
  errorString ("Error parsing target template: " +:+ e).
Definition template_error (k : TemplateKey) (e : string) : error :=
  errorString ("Error processing " +:+ template_name k +:+ ": " +:+ e).
Definition slice_error (k : string) (i : nat) (e : string) : error :=
  errorString ("Error processing " +:+ k +:+ "[" +:+ pretty i +:+ "]: " +:+ e).
Definition script_error (path e : string) : error :=
  errorString ("Bad script '" +:+ path +:+ "': " +:+ e).
Definition env_error (kv : string) : error :=
  errorString ("Environment variable not in format 'key=value': " +:+ kv).

Definition only_one_errors (c : Config Ctx) : list error :=
  if negb (String.eqb (Script c) "") && (0 <? len (Scripts c))
  then [only_one_error] else [].

Definition target_errors (c : Config Ctx) : list error :=
  match Validate (TargetPath c) (ctx c) with
  | Some e => [target_error e]
  | None => []
  end.

Definition template_errors (c : Config Ctx) (k : TemplateKey) : list error :=
  match snd (Render (template0 c k) (ctx c)) with
  | Some e => [template_error k e]
  | None => []
  end.

Fixpoint render_errors (n : string) (i : nat) (slice : list string) (cx : Ctx)
  : list error :=
  match slice with
  | [] => []
  | elem :: rest =>
      match snd (Render elem cx) with
      | Some e => [slice_error n i e]
      | None => []
      end ++ render_errors n (S i) rest cx
  end.

Definition slice_errors (c : Config Ctx) (k : SliceKey) : list error :=
  render_errors (slice_name k) 0 (elems (slice0 c k)) (ctx c).

Definition presence_errors (c : Config Ctx) : list error :=
  match scripts0 c, Inline c with
  | [], None => [either_error]
  | _ :: _, Some _ => [not_both_error]
  | _, _ => []
  end.

Definition script_errors (w : World) (paths : list string) : list error :=
  flat_map (fun path =>
              match os_Stat w path with
              | Some e => [script_error path e]
              | None => []
              end) paths.

Definition env_errors (vars : list string) : list error :=
  flat_map (fun kv => if bad_env_var kv then [env_error kv] else []) vars.

(** The configuration [Configure] leaves behind. *)
Definition configured (c : Config Ctx) : Config Ctx :=
  mkConfig (PackerBuildName c) (PackerBuilderType c)
           (rendered (ctx c) <$> Inline c)
           (fst (Render (shebang0 c) (ctx c)))
           (fst (Render (Script c) (ctx c)))
           (Some (rendered (ctx c) (elems (Vars c))))
           (Some (rendered (ctx c) (scripts0 c)))
           (TargetPath c) (KeepInputArtifact c) (ctx c).

(** All the errors of the validation, rule after rule, in the order the
    checks are made. *)
Definition all_errors (to : TemplatesOrder) (so : SlicesOrder) (w : World)
    (c : Config Ctx) : list error :=
  only_one_errors c
  ++ target_errors c
  ++ flat_map (template_errors c) (templates_keys to)
  ++ flat_map (slice_errors c) (slices_keys so)
  ++ presence_errors c
  ++ script_errors w (rendered (ctx c) (scripts0 c))
  ++ env_errors (rendered (ctx c) (elems (Vars c))).

End Rules.

(** [Configure] returns an aggregate error that has [e] among its entries. *)
Definition reported (r : option error) (e : error) : Prop :=
  exists errs, r = Some (MultiError errs) /\ In e errs.

(** ** The model at work: calls on the concrete host [demo] *)

Module run.

Definition PostProcess (c : Config unit) (a : main.Artifact) : Result :=
  @PostProcess demo.host unit "shell" "/tmp/out.box" main.Artifact _
               (demo.pp c) [] a demo.world.

Definition Configure (c : Config unit) : ShellPostProcessor unit * option error :=
  @Configure unit (Config unit) demo.interpolate demo.decoder
             shebang_script inline_scripts_vars demo.world
             (demo.pp (demo.cfg None "" None None)) [c].

Definition env : list string :=
  ["PACKER_BUILD_NAME=b"; "PACKER_BUILDER_TYPE=virtualbox-iso"].

(** Two scripts that succeed. *)
Definition two_scripts : Config unit :=
  demo.cfg None "" (Some ["/tmp/s1.sh"; "/tmp/s2.sh"]) (Some []).

(** A script that fails, followed by one that would succeed. *)
Definition failing : Config unit :=
  demo.cfg None "" (Some ["/tmp/fail.sh"; "/tmp/s1.sh"]) (Some []).

(** Inline commands. *)
Definition inline_ab : Config unit :=
  demo.cfg (Some ["echo a"; "echo b"]) "" (Some []) (Some []).

(** [script] and [scripts] together, and a variable without a key. *)
Definition both : Config unit :=
  demo.cfg None "/tmp/s1.sh" (Some ["/tmp/s2.sh"]) (Some ["=foo"]).

(** An inline list with no element. *)
Definition empty_inline : Config unit :=
  demo.cfg (Some []) "" None (Some ["A=b"]).

End run.

(** ** Further vocabulary *)

(** The events a call has added to the record of the world. *)
Definition new_execs (w w' : World) : list (Cmd * ProcResult) :=
  drop (length (execs w)) (execs w').

(** What the [ui] is told around one run of the shell: the script, the
    file, and what the process wrote to its standard output. *)
Definition ui_of_exec (ev : Cmd * ProcResult) : list packer.UiEvent :=
  [packer.Say ("Process with shell script: " +:+ default "" (cmd_Args ev.1 !! 1));
   packer.Message ("Executing script with artifact: " +:+ default "" (cmd_Args ev.1 !! 2));
   packer.Message (pr_stdout ev.2)].

(** The writer holds bytes it has not written, or has met the error [e]. *)
Definition stuck (e : string) (b : Writer) : Prop :=
  (wr_err b = None /\ wr_buf b <> "") \/ wr_err b = Some e.

#[global] Instance TemplateKey_eq_dec : EqDecision TemplateKey.
Proof. solve_decision. Defined.

#[global] Instance SliceKey_eq_dec : EqDecision SliceKey.
Proof. solve_decision. Defined.

(** A host on which no temporary file can be created, and one on which the
    disk fills up when the script is written. *)
Module edge.


Definition full_disk : Host := {|
  host_TempFile _ _ _ := inl demo.tmp;
  host_Write _ _ _ := (0, Some "no space left on device");
  host_Run := demo.run
|}.

(** [script] set, with a [scripts] list that is replaced. *)
Definition single : Config unit :=
  demo.cfg None "/tmp/s1.sh" (Some ["/tmp/s2.sh"; "/nowhere.sh"]) None.

(** Two scripts and two well-formed variables. *)
Definition valid : Config unit :=
  demo.cfg None "" (Some ["/tmp/s1.sh"; "/tmp/s2.sh"]) (Some ["A=b"; "C="]).

(** Nothing to run. *)
Definition nothing : Config unit := demo.cfg None "" (Some []) (Some []).


Definition no_files : main.Artifact := {|
  main.builderId := "mitchellh.virtualbox";
  main.files := [];
  main.id := "x";
  main.str := "no files"
|}.

End edge.

(** * Properties *)

(** ** The format of environment variables

    The comment in the code names [=foo] and [foobar] as bad. *)

Example bad_env_var_no_key : bad_env_var "=foo" = true.
Proof. reflexivity. Qed.

Example bad_env_var_no_equals : bad_env_var "foobar" = true.
Proof. reflexivity. Qed.

Example bad_env_var_empty : bad_env_var "" = true.
Proof. reflexivity. Qed.

Example good_env_var : bad_env_var "a=b=c" = false.
Proof. reflexivity. Qed.

Example good_env_var_empty_value : bad_env_var "a=" = false.
Proof. reflexivity. Qed.

Lemma cut_Some sep s a b :
  cut sep s = Some (a, b) -> s = a +:+ String sep b.
Proof.
  revert a. induction s as [|c s IH]; intros a; simpl; [done|].
  destruct (Ascii.eqb_spec c sep) as [->|Hne].
  - by intros [= <- <-].
  - destruct (cut sep s) as [[a' b']|]; [|done].
    intros [= <- <-]. by rewrite (IH a' eq_refl).
Qed.

(** An entry passes the check exactly when it is a non-empty key, [=], and
    a value. *)
Lemma bad_env_var_false kv :
  bad_env_var kv = false <->
  exists key value, key <> "" /\ cut "="%char kv = Some (key, value).
Proof.
  unfold bad_env_var, strings_SplitN2.
  destruct (cut "=" kv) as [[a b]|]; simpl.
  - destruct (String.eqb_spec a ""); split.
    + done.
    + intros (k & v & Hk & [= <- <-]). done.
    + intros _. by exists a, b.
    + done.
  - split; [done|]. by intros (k & v & _ & ?).
Qed.

(** ** Strings *)

Lemma str_app_nil_r (s : string) : s +:+ "" = s.
Proof.
  induction s as [|c s IH]; [done|].
  change (String c (s +:+ "") = String c s). by rewrite IH.
Qed.

Lemma str_app_assoc (a b c : string) : (a +:+ b) +:+ c = a +:+ b +:+ c.
Proof.
  induction a as [|x a IH]; [done|].
  change (String x ((a +:+ b) +:+ c) = String x (a +:+ b +:+ c)). by rewrite IH.
Qed.

Lemma str_take_all (n : nat) (s : string) :
  String.length s <= n -> str_take n s = s.
Proof.
  revert n. induction s as [|c s IH]; intros [|n] Hn; simpl in *; try done; try lia.
  rewrite IH; [done | lia].
Qed.

Lemma contains_suffix (pfx s : string) : contains (pfx +:+ s) s.
Proof. exists pfx, "". by rewrite str_app_nil_r. Qed.

(** ** The file system *)

Lemma os_Remove_gone (path : string) (w : World) :
  fs (fst (os_Remove path w)) !! path = None.
Proof.
  unfold os_Remove. destruct (fs w !! path) eqn:E; simpl; [|done].
  apply lookup_delete_eq.
Qed.

Lemma os_Remove_execs (path : string) (w : World) :
  execs (fst (os_Remove path w)) = execs w.
Proof. unfold os_Remove. by destruct (fs w !! path). Qed.

(** ** Reasoning about the monad *)

Section Monad.

Lemma returns_ret {A : Type} P (a : A) : returns P (ret a).
Proof. intros s s' v H. inversion H. Qed.

Lemma returns_return_ {A : Type} (P : Returned -> Prop) v :
  P v -> returns P (@return_ A v).
Proof. intros Hv s s' v' H. by inversion H; subst. Qed.

Lemma returns_bind {A B : Type} P (m : M A) (k : A -> M B) :
  returns P m -> (forall a, returns P (k a)) -> returns P (bind m k).
Proof.
  intros Hm Hk s s' v. unfold bind.
  destruct (m s) as [s1 [a|v1]] eqn:E; intros H.
  - by eapply Hk.
  - inversion H; subst. by eapply Hm.
Qed.

Lemma returns_os {A : Type} P (f : World -> World * A) : returns P (os f).
Proof. intros s s' v. unfold os. destruct (f (st_world s)). intros H. inversion H. Qed.

Lemma returns_defer {A B : Type} P (c : World -> World * B) (m : M A) :
  returns P m -> returns P (defer c m).
Proof.
  intros Hm s s' v. unfold defer. destruct (m s) as [s1 r] eqn:E.
  intros H. inversion H; subst. by eapply Hm.
Qed.

Lemma returns_for_each {A : Type} P (l : list A) (body : A -> M unit) :
  (forall x, returns P (body x)) -> returns P (for_each l body).
Proof.
  intros Hb. induction l as [|x l IH]; simpl.
  - apply returns_ret.
  - apply returns_bind; [apply Hb | intros _; apply IH].
Qed.

Lemma finishes_return_ (P : Returned -> Prop) v : P v -> finishes P (return_ v).
Proof. intros Hv s s' r H. by inversion H; subst. Qed.

Lemma finishes_bind {A : Type} P (m : M A) (k : A -> M Returned) :
  returns P m -> (forall a, finishes P (k a)) -> finishes P (bind m k).
Proof.
  intros Hm Hk s s' r. unfold bind.
  destruct (m s) as [s1 [a|v1]] eqn:E; intros H.
  - by eapply Hk.
  - inversion H; subst. by eapply Hm.
Qed.

Lemma finishes_defer {B : Type} P (c : World -> World * B) (m : M Returned) :
  finishes P m -> finishes P (defer c m).
Proof.
  intros Hm s s' r. unfold defer. destruct (m s) as [s1 r1] eqn:E.
  intros H. inversion H; subst. by eapply Hm.
Qed.

End Monad.

Ltac returns_prim :=
  let s := fresh "s" in let s' := fresh "s'" in let v := fresh "v" in
  let H := fresh "H" in
  intros s s' v H; inversion H.

Section Returns.

Context `{!Host} {Ctx : Type}.

Variable P : Returned -> Prop.
Variable keep : bool.
Hypothesis P_err : forall e, P (None, keep, Some e).

Lemma returns_write_commands commands writer :
  returns P (write_commands keep commands writer).
Proof.
  revert writer. induction commands as [|c l IH]; intros writer; simpl.
  - apply returns_ret.
  - apply returns_bind; [apply returns_os|].
    intros [b [e|]]; simpl; [by apply returns_return_ | apply IH].
Qed.

Lemma returns_write_inline_script tf shebang inline :
  returns P (write_inline_script keep tf shebang inline).
Proof.
  unfold write_inline_script.
  apply returns_bind; [apply returns_os|]. intros r.
  apply returns_bind; [apply returns_write_commands|]. intros writer.
  apply returns_bind; [apply returns_os|].
  intros [b [e|]]; simpl; [by apply returns_return_ | apply returns_ret].
Qed.

Lemma returns_run_script envVars art path :
  returns P (run_script keep envVars art path).
Proof.
  unfold run_script.
  apply returns_bind; [returns_prim|]. intros _.
  apply returns_bind; [returns_prim|]. intros _.
  apply returns_bind; [returns_prim|]. intros _.
  apply returns_bind; [apply returns_os|].
  intros [e|]; [by apply returns_return_|].
  apply returns_bind; [returns_prim|]. intros _.
  apply returns_bind; [returns_prim|]. intros err.
  apply returns_bind; [returns_prim|]. intros out.
  apply returns_bind; [returns_prim|]. intros _.
  destruct err; [|apply returns_ret].
  apply returns_bind; [returns_prim|]. intros msg.
  by apply returns_return_.
Qed.

Lemma finishes_run_all {A : Type} `{!packer.Artifact A} name outputPath
    (c : Config Ctx) scripts (artifact : A) :
  (forall a, P (Some a, keep, None)) ->
  finishes P (run_all name outputPath keep c scripts artifact).
Proof.
  intros P_ok. unfold run_all.
  apply finishes_bind.
  - apply returns_for_each. intros art. apply returns_for_each. intros path.
    apply returns_run_script.
  - intros _. by apply finishes_return_.
Qed.

End Returns.

Section PostProcessProps.

Context `{!Host} {Ctx : Type}.
Context {A : Type} `{!packer.Artifact A}.

Variables name outputPath : string.

Lemma finishes_PostProcess_body (P : Returned -> Prop)
    (p : ShellPostProcessor Ctx) (artifact : A) :
  (forall e, P (None, KeepInputArtifact (config p), Some e)) ->
  (forall a, P (Some a, KeepInputArtifact (config p), None)) ->
  finishes P (PostProcess_body name outputPath p artifact).
Proof.
  intros P_err P_ok. unfold PostProcess_body.
  destruct (Inline (config p)) as [inline|].
  - apply finishes_bind; [apply returns_os|].
    intros [tf|e]; [|by apply finishes_return_].
    apply finishes_defer. apply finishes_bind.
    + by apply returns_write_inline_script.
    + intros _. by apply finishes_run_all.
  - by apply finishes_run_all.
Qed.

(** What [PostProcess] returns satisfies whatever holds of all its [return]
    statements. *)
Lemma PostProcess_returned (P : Returned -> Prop)
    (p : ShellPostProcessor Ctx) ui (artifact : A) w :
  (forall e, P (None, KeepInputArtifact (config p), Some e)) ->
  (forall a, P (Some a, KeepInputArtifact (config p), None)) ->
  let R := PostProcess name outputPath p ui artifact w in
  P (r_artifact R, r_keep R, r_err R).
Proof.
  intros P_err P_ok. unfold PostProcess.
  destruct (PostProcess_body _ _ _ _ _) as [s r] eqn:E.
  pose proof (finishes_PostProcess_body P p artifact P_err P_ok _ _ _ E) as HP.
  destruct (match r with Next v => v | Return v => v end) as [[a k] e]. exact HP.
Qed.

(** C10. Whatever happens, the boolean [PostProcess] returns is the
    configured [keep_input_artifact], and when it returns an error the
    artifact it returns is nil. *)
Theorem PostProcess_keep_and_nil_on_error
    (p : ShellPostProcessor Ctx) (ui : list packer.UiEvent) (artifact : A)
    (w : World) :
  let R := PostProcess name outputPath p ui artifact w in
  r_keep R = KeepInputArtifact (config p)
  /\ (r_err R <> None -> r_artifact R = None).
Proof.
  apply (PostProcess_returned
           (fun v => v.1.2 = KeepInputArtifact (config p)
                     /\ (v.2 <> None -> v.1.1 = None))); simpl.
  - intros e. split; [reflexivity | intros _; reflexivity].
  - intros a. split; [reflexivity | intros Hne; contradiction Hne; reflexivity].
Qed.

End PostProcessProps.

(** ** The inline script *)

Section InlineScript.

Context `{!Host}.

Lemma File_Write_spec path data w w' e :
  File_Write path data w = (w', e) ->
  execs w' = execs w
  /\ (e = None -> fs w' !! path = Some (default "" (fs w !! path) +:+ data)).
Proof.
  unfold File_Write. destruct (host_Write w path data) as [n [msg|]].
  - intros [= <- <-]. split; [done | discriminate].
  - destruct (n <? String.length data) eqn:En; intros [= <- <-].
    + split; [done | discriminate].
    + split; [done|]. intros _. simpl. rewrite lookup_insert_eq.
      rewrite str_take_all; [done|]. apply Nat.ltb_ge in En. lia.
Qed.

Lemma Flush_spec tf b w acc b' w' e :
  written tf b w acc ->
  Flush b w = (b', w', e) ->
  execs w' = execs w
  /\ written tf b' w' acc
  /\ (e = None -> fs w' !! tf = Some acc).
Proof.
  intros [Hf Hw]. unfold Flush. destruct (wr_err b) as [e0|] eqn:Eerr.
  - intros [= <- <- <-]. split; [done|]. split; [|discriminate].
    split; [done|]. rewrite Eerr. discriminate.
  - destruct (Hw eq_refl) as (content & Hc & Hacc).
    destruct (wr_buf b) as [|c0 buf] eqn:Ebuf.
    + intros [= <- <- <-]. split; [done|].
      rewrite str_app_nil_r in Hacc. subst content. split; [|done].
      split; [done|]. intros _. exists acc. rewrite Ebuf, str_app_nil_r. done.
    + destruct (File_Write (wr_file b) (String c0 buf) w) as [w1 [e1|]] eqn:EW;
        intros [= <- <- <-];
        destruct (File_Write_spec _ _ _ _ _ EW) as [Hex Hfs].
      * split; [done|]. split; [|discriminate]. split; [done|]. discriminate.
      * specialize (Hfs eq_refl). rewrite Hf, Hc in Hfs. simpl in Hfs.
        rewrite Hacc in Hfs. split; [done|]. split; [|done].
        split; [done|]. intros _. exists acc. simpl. by rewrite str_app_nil_r.
Qed.

Lemma WriteString_spec tf s b w acc b' w' e :
  written tf b w acc ->
  WriteString s b w = (b', w', e) ->
  execs w' = execs w /\ written tf b' w' (acc +:+ s).
Proof.
  intros [Hf Hw]. unfold WriteString. destruct (wr_err b) as [e0|] eqn:Eerr.
  - intros [= <- <- <-]. split; [done|]. split; [done|]. rewrite Eerr. discriminate.
  - destruct (Hw eq_refl) as (content & Hc & Hacc).
    assert (written tf
              {| wr_file := wr_file b; wr_buf := wr_buf b +:+ s; wr_err := None |}
              w (acc +:+ s)) as Hb1.
    { split; [done|]. intros _. exists content. split; [done|]. simpl.
      by rewrite <- Hacc, str_app_assoc. }
    destruct (String.length (wr_buf b) + String.length s <=? defaultBufSize).
    + intros [= <- <- <-]. done.
    + intros HF. destruct (Flush_spec _ _ _ _ _ _ _ Hb1 HF) as (? & ? & _). done.
Qed.

Lemma lines_cons c rest acc :
  (acc +:+ c +:+ nl) +:+ lines rest = acc +:+ lines (c :: rest).
Proof. simpl. by rewrite !str_app_assoc. Qed.

Lemma write_commands_spec keep tf commands b s acc s' r :
  written tf b (st_world s) acc ->
  write_commands keep commands b s = (s', r) ->
  execs (st_world s') = execs (st_world s)
  /\ match r with
     | Next b' => written tf b' (st_world s') (acc +:+ lines commands)
     | Return v =>
         exists e, v = (None, keep, Some (fmt_Errorf "Error preparing shell script: " e))
     end.
Proof.
  revert b s acc. induction commands as [|c rest IH]; intros b s acc Hb; simpl.
  - intros [= <- <-]. split; [done|]. simpl. by rewrite str_app_nil_r.
  - unfold bind, writer_WriteString, os.
    destruct (WriteString (c +:+ nl) b (st_world s)) as [[b1 w1] e1] eqn:EW.
    destruct (WriteString_spec _ _ _ _ _ _ _ _ Hb EW) as [Hex Hb1].
    simpl. destruct e1 as [e1|].
    + intros [= <- <-]. simpl. split; [done|]. by exists e1.
    + intros Hrest. apply (IH _ _ (acc +:+ c +:+ nl)) in Hrest; [|done].
      destruct Hrest as [Hex' Hr]. simpl in Hex'. split; [congruence|].
      destruct r; [|done]. by rewrite lines_cons in Hr.
Qed.

(** The materialization either leaves the method with a preparation error
    or leaves the script text in the file; it runs no command. *)
Lemma write_inline_script_spec keep tf shebang inline s s' r :
  fs (st_world s) !! tf = Some "" ->
  write_inline_script keep tf shebang inline s = (s', r) ->
  execs (st_world s') = execs (st_world s)
  /\ match r with
     | Next _ => fs (st_world s') !! tf = Some (script_text shebang inline)
     | Return v =>
         exists e, v = (None, keep, Some (fmt_Errorf "Error preparing shell script: " e))
     end.
Proof.
  intros Hempty. unfold write_inline_script, bind at 1, writer_WriteString, os.
  destruct (WriteString ("#!" +:+ shebang +:+ nl) (bufio_NewWriter tf) (st_world s))
    as [[b1 w1] e1] eqn:EW.
  assert (written tf (bufio_NewWriter tf) (st_world s) "") as H0.
  { split; [done|]. intros _. by exists "". }
  destruct (WriteString_spec _ _ _ _ _ _ _ _ H0 EW) as [Hex1 Hb1].
  simpl. unfold bind at 1.
  destruct (write_commands keep inline b1 (set_world w1 s)) as [s2 [b2|v]] eqn:EC;
    destruct (write_commands_spec keep tf inline b1 (set_world w1 s) _ _ _ Hb1 EC)
      as [Hex2 Hr2];
    simpl in Hex2.
  - unfold bind, writer_Flush, os.
    destruct (Flush b2 (st_world s2)) as [[b3 w3] e3] eqn:EF.
    destruct (Flush_spec _ _ _ _ _ _ _ Hr2 EF) as (Hex3 & _ & Hfs).
    simpl. destruct e3 as [e3|]; intros [= <- <-]; simpl.
    + split; [congruence|]. by exists e3.
    + split; [congruence|]. rewrite (Hfs eq_refl). unfold script_text.
      by rewrite !str_app_assoc.
  - intros [= <- <-]. split; [congruence | done].
Qed.

End InlineScript.

(** ** The loop over files and scripts *)

Lemma ran_Next keep envVars jobs new :
  ran keep envVars jobs new (Next tt) ->
  map fst new = map (fun j => sh_cmd envVars j.1 j.2) jobs.
Proof.
  intros Hr. remember (Next tt) as r eqn:Er.
  induction Hr as [| | |art path jobs pr new r Hok Hr IH]; try discriminate.
  - reflexivity.
  - simpl. by rewrite (IH Er).
Qed.

Lemma ran_Return keep envVars jobs new v :
  ran keep envVars jobs new (Return v) -> exists e, v = (None, keep, Some e).
Proof.
  intros Hr. remember (Return v) as r eqn:Er.
  induction Hr as [| | |art path jobs pr new r Hok Hr IH]; try discriminate.
  - injection Er as <-. eauto.
  - injection Er as <-. eauto.
  - by apply IH.
Qed.

(** A process that failed is the last one that was run, and the error
    returned carries what it wrote to its standard error. *)
Lemma ran_failure_last keep envVars jobs new r pre c pr post :
  ran keep envVars jobs new r ->
  new = pre ++ (c, pr) :: post ->
  pr_err pr <> None ->
  post = []
  /\ r = Return (None, keep,
                 Some (fmt_Errorf "Unable to execute script: " (pr_stderr pr))).
Proof.
  intros Hr. revert pre.
  induction Hr as [|art path jobs e|art path jobs pr0 Hbad
                   |art path jobs pr0 new r Hok Hr IH]; intros pre Hnew Hfail.
  - by destruct pre.
  - by destruct pre.
  - destruct pre as [|x pre]; simpl in Hnew.
    + by injection Hnew as <- <-.
    + injection Hnew as _ Hnil. by destruct pre.
  - destruct pre as [|x pre]; simpl in Hnew.
    + injection Hnew as _ <- _. contradiction.
    + injection Hnew as _ Hnew. by apply (IH pre).
Qed.

Section Loop.

Context `{!Host}.

Lemma for_each_app {A : Type} (l1 l2 : list A) (body : A -> M unit) s :
  for_each (l1 ++ l2) body s = (for_each l1 body ;;; for_each l2 body) s.
Proof.
  revert s. induction l1 as [|x l1 IH]; intros s; simpl; [done|].
  unfold bind. destruct (body x s) as [s1 [[]|v]]; [|done].
  rewrite IH. done.
Qed.

Lemma for_each_map {A B : Type} (g : A -> B) (l : list A) (body : B -> M unit) s :
  for_each (map g l) body s = for_each l (fun x => body (g x)) s.
Proof.
  revert s. induction l as [|x l IH]; intros s; simpl; [done|].
  unfold bind. destruct (body (g x) s) as [s1 [[]|v]]; [apply IH | done].
Qed.

(** The nested loops visit the pairs in file-major order. *)
Lemma for_each_nested (files scripts : list string)
    (body : string -> string -> M unit) s :
  for_each files (fun art => for_each scripts (fun path => body art path)) s
  = for_each (pairs files scripts) (fun j => body j.1 j.2) s.
Proof.
  revert s. induction files as [|art files IH]; intros s; simpl; [done|].
  rewrite for_each_app. unfold bind. rewrite for_each_map. simpl.
  destruct (for_each scripts _ s) as [s1 [[]|v]]; [apply IH | done].
Qed.

Lemma run_script_spec keep envVars art path s s' r :
  run_script keep envVars art path s = (s', r) ->
  (exists e,
      execs (st_world s') = execs (st_world s)
      /\ r = Return (None, keep, Some (fmt_Errorf "Error opening shell script: " e)))
  \/ (exists pr,
      execs (st_world s') = execs (st_world s) ++ [(sh_cmd envVars art path, pr)]
      /\ r = match pr_err pr with
             | None => Next tt
             | Some _ =>
                 Return (None, keep,
                         Some (fmt_Errorf "Unable to execute script: " (pr_stderr pr)))
             end).
Proof.
  unfold run_script, bind, stderr_Reset, stdout_Reset, ui_Say, ui_Message, os,
    cmd_Run, stdout_String, stderr_String, return_, ret, set_world. simpl.
  destruct (os_Open (st_world s) path) as [e|].
  - intros [= <- <-]. left. by exists e.
  - match goal with
    | |- context [host_Run ?w ?c] => set (pr := host_Run w c)
    end.
    destruct (pr_err pr) eqn:Ee;
      intros [= <- <-]; right; exists pr; simpl; by rewrite Ee.
Qed.

Lemma for_each_ran keep envVars jobs s s' r :
  for_each jobs (fun j => run_script keep envVars j.1 j.2) s = (s', r) ->
  exists new,
    execs (st_world s') = execs (st_world s) ++ new
    /\ ran keep envVars jobs new r.
Proof.
  revert s. induction jobs as [|[art path] jobs IH]; intros s; simpl.
  - intros [= <- <-]. exists []. rewrite app_nil_r. split; [done | constructor].
  - unfold bind. destruct (run_script keep envVars art path s) as [s1 r1] eqn:E1.
    apply run_script_spec in E1 as [(e & Hex & ->)|(pr & Hex & ->)].
    + intros [= <- <-]. exists []. rewrite app_nil_r. split; [done | constructor].
    + destruct (pr_err pr) eqn:Ee.
      * intros [= <- <-]. eexists. split; [exact Hex|].
        constructor. by rewrite Ee.
      * intros Hrest. apply IH in Hrest as (new & Hex' & Hran).
        exists ((sh_cmd envVars art path, pr) :: new). split.
        -- rewrite Hex', Hex, <- List.app_assoc. done.
        -- by constructor.
Qed.

End Loop.

(** ** [PostProcess] as a whole *)

Section PostProcessTrace.

Context `{!Host} {Ctx : Type}.
Context {A : Type} `{!packer.Artifact A}.

Variables name outputPath : string.

Lemma run_all_spec keep (c : Config Ctx) scripts (artifact : A) s s' r :
  run_all name outputPath keep c scripts artifact s = (s', r) ->
  exists new rr,
    execs (st_world s') = execs (st_world s) ++ new
    /\ ran keep (envVars_of c) (pairs (packer.Files artifact) scripts) new rr
    /\ value r
       = match rr with
         | Next _ =>
             (Some (NewArtifact name (packer.BuilderId artifact) outputPath), keep, None)
         | Return v => v
         end.
Proof.
  unfold run_all, bind. rewrite for_each_nested.
  destruct (for_each _ _ s) as [s1 rr] eqn:E.
  apply for_each_ran in E as (new & Hex & Hran).
  destruct rr as [[]|v]; intros [= <- <-]; exists new; eexists; eauto.
Qed.

Lemma PostProcess_unfold (p : ShellPostProcessor Ctx) ui (artifact : A) w :
  exists s' r,
    PostProcess_body name outputPath p artifact (mkSt w ui "" "") = (s', r)
    /\ PostProcess name outputPath p ui artifact w
       = mkResult (value r).1.1 (value r).1.2 (value r).2 (st_world s') (st_ui s').
Proof.
  unfold PostProcess.
  destruct (PostProcess_body _ _ _ _ _) as [s' r]. exists s', r.
  split; [done|]. unfold value. by destruct r as [[[a k] e]|[[a k] e]].
Qed.

Lemma PostProcess_body_ran (p : ShellPostProcessor Ctx) (artifact : A) s s' r :
  PostProcess_body name outputPath p artifact s = (s', r) ->
  let keep := KeepInputArtifact (config p) in
  exists new,
    execs (st_world s') = execs (st_world s) ++ new
    /\ ((new = []
         /\ exists e,
             value r = (None, keep, Some (fmt_Errorf "Error preparing shell script: " e)))
        \/ exists rr,
            ran keep (envVars_of (config p))
                (pairs (packer.Files artifact) (resolved_scripts p (st_world s))) new rr
            /\ value r
               = match rr with
                 | Next _ => success name outputPath p artifact
                 | Return v => v
                 end).
Proof.
  unfold PostProcess_body, resolved_scripts, success.
  destruct (Inline (config p)) as [inline|].
  - unfold bind at 1, os, ioutil_TempFile.
    destruct (host_TempFile (st_world s) "" "packer-shell") as [tf|e].
    + unfold defer, bind.
      destruct (write_inline_script _ tf _ inline _) as [s1 [[]|v]] eqn:EW;
        apply write_inline_script_spec in EW; try apply lookup_insert_eq;
        destruct EW as [Hex1 Hr1]; simpl in Hex1.
      * destruct (run_all _ _ _ _ _ _ s1) as [s2 r2] eqn:ER.
        apply run_all_spec in ER as (new & rr & Hex2 & Hran & Hv).
        intros [= <- <-]. exists new. simpl. rewrite os_Remove_execs.
        split; [congruence|]. right. by exists rr.
      * destruct Hr1 as [e ->]. intros [= <- <-]. exists []. simpl.
        rewrite os_Remove_execs, List.app_nil_r. split; [done|]. left. eauto.
    + intros [= <- <-]. exists []. rewrite List.app_nil_r. split; [done|].
      left. eauto.
  - rewrite List.app_nil_r. intros ER.
    apply run_all_spec in ER as (new & rr & Hex2 & Hran & Hv).
    exists new. split; [done|]. right. by exists rr.
Qed.

(** The commands a call has run are added to the record, and the call
    either failed while preparing the inline script, having run nothing, or
    went through the pairs of a file and a resolved script as [ran] says. *)
Lemma PostProcess_ran (p : ShellPostProcessor Ctx) ui (artifact : A) w :
  let R := PostProcess name outputPath p ui artifact w in
  let keep := KeepInputArtifact (config p) in
  exists new,
    execs (r_world R) = execs w ++ new
    /\ ((new = []
         /\ exists e,
             (r_artifact R, r_keep R, r_err R)
             = (None, keep, Some (fmt_Errorf "Error preparing shell script: " e)))
        \/ exists rr,
            ran keep (envVars_of (config p))
                (pairs (packer.Files artifact) (resolved_scripts p w)) new rr
            /\ (r_artifact R, r_keep R, r_err R)
               = match rr with
                 | Next _ => success name outputPath p artifact
                 | Return v => v
                 end).
Proof.
  destruct (PostProcess_unfold p ui artifact w) as (s' & r & E & ->).
  apply PostProcess_body_ran in E as (new & Hex & Hcases). simpl in *.
  exists new. split; [done|].
  destruct (value r) as [[a k] e]. exact Hcases.
Qed.

(** A call that returns no error has run every pair and returns the values
    of the last [return]. *)
Lemma PostProcess_success (p : ShellPostProcessor Ctx) ui (artifact : A) w :
  let R := PostProcess name outputPath p ui artifact w in
  r_err R = None ->
  r_artifact R = Some (NewArtifact name (packer.BuilderId artifact) outputPath)
  /\ execs (r_world R) = execs w ++ drop (length (execs w)) (execs (r_world R))
  /\ invocations w (r_world R)
     = map (fun j => sh_cmd (envVars_of (config p)) j.1 j.2)
           (pairs (packer.Files artifact) (resolved_scripts p w)).
Proof.
  intros R Hok. subst R.
  destruct (PostProcess_ran p ui artifact w) as (new & Hex & [(_ & e & Hv)|(rr & Hran & Hv)]).
  - injection Hv as _ _ Hv. congruence.
  - destruct rr as [[]|v].
    + unfold success in Hv. injection Hv as Ha _ _.
      unfold invocations. rewrite Hex, drop_app_length.
      split; [done|]. split; [done|]. exact (ran_Next _ _ _ _ Hran).
    + apply ran_Return in Hran as [e ->]. injection Hv as _ _ Hv. congruence.
Qed.

End PostProcessTrace.

Lemma map_pairs {B : Type} (f : string -> string -> B) (files scripts : list string) :
  map (fun j => f j.1 j.2) (pairs files scripts)
  = flat_map (fun art => map (fun path => f art path) scripts) files.
Proof.
  unfold pairs. induction files as [|art files IH]; simpl; [done|].
  rewrite map_app, IH. f_equal. by rewrite map_map.
Qed.

Lemma length_pairs (files scripts : list string) :
  length (pairs files scripts) = length files * length scripts.
Proof.
  unfold pairs. induction files as [|art files IH]; simpl; [done|].
  by rewrite length_app, length_map, IH.
Qed.

Section PostProcessMain.

Context `{!Host} {Ctx : Type}.
Context {A : Type} `{!packer.Artifact A}.

Variables name outputPath : string.

(** On success the artifact returned is the one [NewArtifact] builds, whose
    [BuilderId] field was never set. *)
Lemma PostProcess_success_BuilderId (p : ShellPostProcessor Ctx) ui (artifact : A) w :
  let R := PostProcess name outputPath p ui artifact w in
  r_err R = None ->
  packer.BuilderId <$> r_artifact R = Some "".
Proof.
  intros R Hok. destruct (PostProcess_success name outputPath p ui artifact w Hok) as [Ha _].
  subst R. by rewrite Ha.
Qed.

(** C2. If a process spawned by a call of [PostProcess] fails (to start, or
    by a non-zero exit), it is the last one the call runs, the call returns
    no artifact, and the message of the error it returns contains what that
    process wrote to its standard error. *)
Theorem PostProcess_stops_at_failure
    (p : ShellPostProcessor Ctx) (ui : list packer.UiEvent) (artifact : A)
    (w : World) (pre post : list (Cmd * ProcResult)) (c : Cmd) (pr : ProcResult) :
  let R := PostProcess name outputPath p ui artifact w in
  execs (r_world R) = execs w ++ pre ++ (c, pr) :: post ->
  pr_err pr <> None ->
  post = []
  /\ r_artifact R = None
  /\ exists msg, r_err R = Some (errorString msg) /\ contains msg (pr_stderr pr).
Proof.
  intros R Hex Hfail. subst R.
  destruct (PostProcess_ran name outputPath p ui artifact w)
    as (new & Hnew & [(-> & _)|(rr & Hran & Hv)]).
  - rewrite Hnew in Hex. apply app_inv_head in Hex. by destruct pre.
  - rewrite Hnew in Hex. apply app_inv_head in Hex.
    destruct (ran_failure_last _ _ _ _ _ _ _ _ _ Hran Hex Hfail) as [-> ->].
    injection Hv as -> _ ->. split; [done|]. split; [done|].
    eexists. split; [reflexivity|]. apply contains_suffix.
Qed.

(** C4. When inline commands are configured and the temporary script file
    has been created, that file is not on disk when [PostProcess] returns,
    whether it returns an error or not. *)
Theorem PostProcess_removes_inline_script
    (p : ShellPostProcessor Ctx) (ui : list packer.UiEvent) (artifact : A)
    (w : World) (inline : list string) (tf : string) :
  Inline (config p) = Some inline ->
  host_TempFile w "" "packer-shell" = inl tf ->
  fs (r_world (PostProcess name outputPath p ui artifact w)) !! tf = None.
Proof.
  intros Hin Htf.
  destruct (PostProcess_unfold name outputPath p ui artifact w) as (s' & r & E & ->).
  simpl. revert E. unfold PostProcess_body. rewrite Hin.
  unfold bind at 1, os, ioutil_TempFile. simpl. rewrite Htf. unfold defer.
  destruct (bind _ _ _) as [s1 r1]. intros [= <- <-]. simpl.
  apply os_Remove_gone.
Qed.

(** C5. A call in which every execution succeeds has invoked the shell once
    for each pair of a file and a resolved script, as [/bin/sh script file]
    with the assembled environment, all scripts in order for the first file,
    then for the second, and so on. *)
Theorem PostProcess_invocations_file_major
    (p : ShellPostProcessor Ctx) (ui : list packer.UiEvent) (artifact : A)
    (w : World) :
  let R := PostProcess name outputPath p ui artifact w in
  let files := packer.Files artifact in
  let scripts := resolved_scripts p w in
  r_err R = None ->
  invocations w (r_world R)
  = flat_map (fun art =>
      map (fun path => sh_cmd (envVars_of (config p)) art path) scripts) files
  /\ length (invocations w (r_world R)) = length files * length scripts.
Proof.
  intros R files scripts Hok.
  destruct (PostProcess_success name outputPath p ui artifact w Hok) as (_ & _ & Hinv).
  fold R in Hinv. rewrite Hinv. split.
  - apply (map_pairs (sh_cmd (envVars_of (config p)))).
  - by rewrite length_map, length_pairs.
Qed.

(** C6. When the temporary file has been created and the materialization
    succeeds, the file holds the line [#!] with the shebang followed by the
    inline commands in order, one per line. *)
Theorem inline_script_content (keep : bool) (w w1 : World) (tf shebang : string)
    (inline : list string) (ui : list packer.UiEvent) (out err : string) (s' : St) :
  ioutil_TempFile "" "packer-shell" w = (w1, inl tf) ->
  write_inline_script keep tf shebang inline (mkSt w1 ui out err) = (s', Next tt) ->
  fs (st_world s') !! tf
  = Some ("#!" +:+ shebang +:+ nl +:+ foldr (fun c acc => c +:+ nl +:+ acc) "" inline).
Proof.
  unfold ioutil_TempFile. destruct (host_TempFile w "" "packer-shell") as [tf'|e];
    [|discriminate].
  intros [= <- <-] Hw.
  apply write_inline_script_spec in Hw as [_ Hfs]; [exact Hfs|].
  simpl. apply lookup_insert_eq.
Qed.

End PostProcessMain.

(** C8. [Destroy] on the artifact of the post-processor is [os.Remove] on
    its path and returns what [os.Remove] returns; when that is no error the
    file at the path is gone, and no other file is touched. *)
Theorem Destroy_removes_file (a : Artifact) (w w' : World) :
  packer.Destroy a w = (w', None) ->
  packer.Destroy a w = os_Remove (Path a) w
  /\ fs w' !! Path a = None
  /\ (forall q, q <> Path a -> fs w' !! q = fs w !! q).
Proof.
  simpl. intros Hd. split; [done|].
  pose proof (os_Remove_gone (Path a) w) as Hgone. rewrite Hd in Hgone.
  split; [exact Hgone|]. intros q Hq. revert Hd. unfold os_Remove.
  destruct (fs w !! Path a); intros [= <-]. simpl. by apply lookup_delete_ne.
Qed.

(** ** [Configure] *)

Section ConfigureRules.

Context {Ctx Raw : Type} `{!Interpolate Ctx} `{!Decoder Raw Ctx}.

Lemma render_elems_spec n i slice cx errs :
  render_elems n i slice cx errs
  = (rendered cx slice, errs ++ render_errors n i slice cx).
Proof.
  revert i errs. induction slice as [|elem rest IH]; intros i errs; simpl.
  - by rewrite List.app_nil_r.
  - destruct (Render elem cx) as [v [e|]]; simpl; rewrite IH; f_equal.
    + unfold MultiErrorAppend. by rewrite <- List.app_assoc.
Qed.

Lemma foldl_check_script w errs paths :
  foldl (check_script w) errs paths = errs ++ script_errors w paths.
Proof.
  revert errs. induction paths as [|path paths IH]; intros errs; simpl.
  - by rewrite List.app_nil_r.
  - rewrite IH. unfold check_script, MultiErrorAppend.
    destruct (os_Stat w path); [by rewrite <- List.app_assoc | done].
Qed.

Lemma foldl_check_env_var errs vars :
  foldl check_env_var errs vars = errs ++ env_errors vars.
Proof.
  revert errs. induction vars as [|kv vars IH]; intros errs; simpl.
  - by rewrite List.app_nil_r.
  - rewrite IH. unfold check_env_var, MultiErrorAppend.
    destruct (bad_env_var kv); [by rewrite <- List.app_assoc | done].
Qed.

Lemma render_template_spec (c : Config Ctx) errs k :
  render_template (c, errs) k
  = (set_template k (fst (Render (get_template k c) (ctx c))) c,
     errs ++ match snd (Render (get_template k c) (ctx c)) with
             | Some e => [template_error k e]
             | None => []
             end).
Proof.
  unfold render_template. destruct (Render _ _) as [v [e|]]; simpl; [done|].
  by rewrite List.app_nil_r.
Qed.

Lemma render_slice_spec (c : Config Ctx) errs k :
  render_slice (c, errs) k
  = (set_slice k (rendered (ctx c) <$> get_slice k c) c,
     errs ++ render_errors (slice_name k) 0 (elems (get_slice k c)) (ctx c)).
Proof.
  unfold render_slice. destruct (get_slice k c) as [l|] eqn:E; simpl.
  - by rewrite render_elems_spec.
  - rewrite List.app_nil_r. destruct k, c; simpl in *; by subst.
Qed.

Ltac proj :=
  unfold set_InlineShebang, set_Scripts, set_Vars, set_Script, set_Inline,
    get_template, set_template, get_slice, set_slice, len, elems, is_nil;
  cbn [InlineShebang Script Scripts Vars Inline TargetPath ctx PackerBuildName
       PackerBuilderType KeepInputArtifact negb andb default id fst snd
       fmap option_fmap option_map].

(** The two loops over maps: whatever the order of the keys, every field is
    rendered once, from the value it had before the loop. *)
Lemma templates_stage to (c : Config Ctx) errs :
  foldl render_template (c, errs) (templates_keys to)
  = (set_Script (fst (Render (Script c) (ctx c)))
       (set_InlineShebang (fst (Render (InlineShebang c) (ctx c))) c),
     errs ++ flat_map (fun k =>
               match snd (Render (get_template k c) (ctx c)) with
               | Some e => [template_error k e]
               | None => []
               end) (templates_keys to)).
Proof.
  destruct c, to; cbn [foldl templates_keys flat_map];
    rewrite !render_template_spec; proj;
    by rewrite List.app_nil_r, <- List.app_assoc.
Qed.

Lemma slices_stage so (c : Config Ctx) errs :
  foldl render_slice (c, errs) (slices_keys so)
  = (set_Vars (rendered (ctx c) <$> Vars c)
       (set_Scripts (rendered (ctx c) <$> Scripts c)
          (set_Inline (rendered (ctx c) <$> Inline c) c)),
     errs ++ flat_map (fun k =>
               render_errors (slice_name k) 0 (elems (get_slice k c)) (ctx c))
             (slices_keys so)).
Proof.
  destruct c, so; cbn [foldl slices_keys flat_map];
    rewrite !render_slice_spec; proj;
    by rewrite List.app_nil_r, <- !List.app_assoc.
Qed.

Lemma length_rendered cx l : length (rendered cx l) = length l.
Proof. apply length_map. Qed.

(** The checks of [Configure], which thread the configuration and the error
    list through the method, compute the configuration and the errors
    described rule by rule above. *)
Lemma validate_spec to so w (c : Config Ctx) :
  validate to so w c = (configured c, all_errors to so w c).
Proof.
  destruct c as [bn bt inl sheb scr vars scrs tgt keep cx].
  unfold validate, all_errors, configured, only_one_errors, target_errors,
    presence_errors, template_errors, slice_errors, template0, slice0,
    shebang0, scripts0, MultiErrorAppend.
  proj.
  destruct (String.eqb sheb "") eqn:Esh; proj;
  destruct scrs as [scrs|]; proj; destruct vars as [vars|]; proj;
  destruct (String.eqb scr "") eqn:Escr; proj.
  all: rewrite templates_stage; proj; rewrite slices_stage; proj.
  all: rewrite foldl_check_env_var, foldl_check_script; proj.
  all: rewrite ?length_rendered.
  all: destruct inl as [inl|]; proj.
  all: try (destruct scrs as [|x scrs]; proj);
    cbn [length Nat.eqb Nat.ltb Nat.leb andb negb app].
  all: rewrite ?List.app_nil_r, <- ?List.app_assoc; cbn [app].
  all: unfold script_errors, rendered; cbn [map flat_map app].
  all: destruct (Validate tgt cx); reflexivity.
Qed.

End ConfigureRules.

Section ConfigureMain.

Context {Ctx Raw : Type} `{!Interpolate Ctx} `{!Decoder Raw Ctx}.

Lemma Configure_spec to so w (p : ShellPostProcessor Ctx) (raws : list Raw) c :
  Decode (config p) raws = (c, None) ->
  Configure to so w p raws
  = (mkShellPostProcessor (configured c),
     match all_errors to so w c with
     | [] => None
     | _ :: _ => Some (MultiError (all_errors to so w c))
     end).
Proof. intros Hd. unfold Configure. by rewrite Hd, validate_spec. Qed.

Lemma Configure_reports to so w (p : ShellPostProcessor Ctx) (raws : list Raw) c e :
  Decode (config p) raws = (c, None) ->
  In e (all_errors to so w c) ->
  reported (snd (Configure to so w p raws)) e.
Proof.
  intros Hd Hin. rewrite (Configure_spec _ _ _ _ _ _ Hd). simpl.
  exists (all_errors to so w c). split; [|done].
  by destruct (all_errors to so w c).
Qed.

Lemma In_templates_keys to k : In k (templates_keys to).
Proof. destruct to, k; simpl; tauto. Qed.

Lemma In_slices_keys so k : In k (slices_keys so).
Proof. destruct so, k; simpl; tauto. Qed.

Lemma render_errors_In n i (l : list string) (cx : Ctx) j elem e :
  l !! j = Some elem ->
  snd (Render elem cx) = Some e ->
  In (slice_error n (i + j) e) (render_errors n i l cx).
Proof.
  revert i j. induction l as [|x l IH]; intros i j Hj He; [done|].
  simpl. apply in_app_iff. destruct j as [|j]; simpl in Hj.
  - injection Hj as ->. left. rewrite He, Nat.add_0_r. by left.
  - right. replace (i + S j) with (S i + j) by lia. by apply IH.
Qed.

Lemma only_one_errors_In (c : Config Ctx) :
  Script c <> "" -> 0 < len (Scripts c) -> In only_one_error (only_one_errors c).
Proof.
  intros Hs Hl. unfold only_one_errors.
  apply String.eqb_neq in Hs. apply Nat.ltb_lt in Hl. rewrite Hs, Hl. by left.
Qed.

Lemma all_errors_only_one to so w (c : Config Ctx) :
  Script c <> "" -> 0 < len (Scripts c) -> In only_one_error (all_errors to so w c).
Proof.
  intros Hs Hl. unfold all_errors. apply in_app_iff. left.
  by apply only_one_errors_In.
Qed.

Lemma all_errors_rules to so w (c : Config Ctx) :
  let errs := all_errors to so w c in
  (forall e, Validate (TargetPath c) (ctx c) = Some e -> In (target_error e) errs)
  /\ (forall k e,
        snd (Render (template0 c k) (ctx c)) = Some e -> In (template_error k e) errs)
  /\ (forall k i elem e,
        elems (slice0 c k) !! i = Some elem ->
        snd (Render elem (ctx c)) = Some e ->
        In (slice_error (slice_name k) i e) errs)
  /\ (scripts0 c = [] -> Inline c = None -> In either_error errs)
  /\ (scripts0 c <> [] -> Inline c <> None -> In not_both_error errs)
  /\ (forall path e,
        In path (rendered (ctx c) (scripts0 c)) ->
        os_Stat w path = Some e ->
        In (script_error path e) errs)
  /\ (forall kv,
        In kv (rendered (ctx c) (elems (Vars c))) ->
        bad_env_var kv = true ->
        In (env_error kv) errs).
Proof.
  unfold all_errors. repeat split.
  - intros e He. rewrite !in_app_iff. right; left.
    unfold target_errors. rewrite He. by left.
  - intros k e He. rewrite !in_app_iff. right; right; left.
    apply in_flat_map. exists k. split; [apply In_templates_keys|].
    unfold template_errors. rewrite He. by left.
  - intros k i elem e Hi He. rewrite !in_app_iff. right; right; right; left.
    apply in_flat_map. exists k. split; [apply In_slices_keys|].
    unfold slice_errors. by apply (render_errors_In _ 0 _ _ i elem).
  - intros Hs Hi. rewrite !in_app_iff. do 4 right. left.
    unfold presence_errors. rewrite Hs, Hi. by left.
  - intros Hs Hi. rewrite !in_app_iff. do 4 right. left.
    unfold presence_errors. destruct (scripts0 c); [done|].
    destruct (Inline c); [by left | done].
  - intros path e Hp He. rewrite !in_app_iff. do 5 right. left.
    apply in_flat_map. exists path. split; [done|]. rewrite He. by left.
  - intros kv Hkv Hbad. rewrite !in_app_iff. do 6 right.
    apply in_flat_map. exists kv. split; [done|]. rewrite Hbad. by left.
Qed.

(** C3. After a successful decoding, every violated rule has its entry in
    the one aggregate error [Configure] returns: script together with
    scripts, a target template that does not parse, a template field or an
    element of a list that does not render, neither or both of scripts and
    inline commands, a script that cannot be found, an environment variable
    that is not [key=value]. No check hides another. *)
Theorem Configure_reports_every_violation to so w
    (p : ShellPostProcessor Ctx) (raws : list Raw) (c : Config Ctx) :
  Decode (config p) raws = (c, None) ->
  let r := snd (Configure to so w p raws) in
  (Script c <> "" -> 0 < len (Scripts c) -> reported r only_one_error)
  /\ (forall e, Validate (TargetPath c) (ctx c) = Some e -> reported r (target_error e))
  /\ (forall k e,
        snd (Render (template0 c k) (ctx c)) = Some e -> reported r (template_error k e))
  /\ (forall k i elem e,
        elems (slice0 c k) !! i = Some elem ->
        snd (Render elem (ctx c)) = Some e ->
        reported r (slice_error (slice_name k) i e))
  /\ (scripts0 c = [] -> Inline c = None -> reported r either_error)
  /\ (scripts0 c <> [] -> Inline c <> None -> reported r not_both_error)
  /\ (forall path e,
        In path (rendered (ctx c) (scripts0 c)) ->
        os_Stat w path = Some e ->
        reported r (script_error path e))
  /\ (forall kv,
        In kv (rendered (ctx c) (elems (Vars c))) ->
        bad_env_var kv = true ->
        reported r (env_error kv)).
Proof.
  intros Hd r. subst r.
  destruct (all_errors_rules to so w c) as (R2 & R3 & R4 & R5 & R6 & R7 & R8).
  pose proof (fun e => Configure_reports to so w p raws c e Hd) as Hrep.
  repeat split; intros; apply Hrep; eauto using all_errors_only_one.
Qed.

(** C7. When the decoded configuration has both [script] and a non-empty
    [scripts], [Configure] fails, and the aggregate error has the entry that
    says only one of the two can be specified. *)
Theorem Configure_script_and_scripts to so w
    (p : ShellPostProcessor Ctx) (raws : list Raw) (c : Config Ctx) :
  Decode (config p) raws = (c, None) ->
  Script c <> "" ->
  0 < len (Scripts c) ->
  exists errs,
    snd (Configure to so w p raws) = Some (MultiError errs)
    /\ In (errorString "Only one of script or scripts can be specified.") errs.
Proof.
  intros Hd Hs Hl.
  apply (Configure_reports to so w p raws c only_one_error Hd).
  by apply all_errors_only_one.
Qed.

End ConfigureMain.

(** ** An inline list that is present and empty *)

Lemma flat_map_nil {X Y : Type} (f : X -> list Y) (l : list X) :
  (forall x, In x l -> f x = []) -> flat_map f l = [].
Proof.
  induction l as [|x l IH]; intros Hf; simpl; [done|].
  rewrite (Hf x), IH; [done | | by left]. intros y Hy. apply Hf. by right.
Qed.

Lemma pairs_singleton (files : list string) (path : string) :
  pairs files [path] = map (fun art => (art, path)) files.
Proof. unfold pairs. induction files as [|art files IH]; simpl; [done | by f_equal]. Qed.

Section EmptyInline.

Context {Ctx Raw : Type} `{!Interpolate Ctx} `{!Decoder Raw Ctx} `{!Host}.
Context {A : Type} `{!packer.Artifact A}.

Variables name outputPath : string.

Lemma render_errors_nil n i (l : list string) (cx : Ctx) :
  (forall elem, In elem l -> snd (Render elem cx) = None) ->
  render_errors n i l cx = [].
Proof.
  revert i. induction l as [|x l IH]; intros i Hl; simpl; [done|].
  rewrite (Hl x), IH; [done | | by left]. intros y Hy. apply Hl. by right.
Qed.

(** A call that returns no error with inline commands configured has
    created the temporary file and left the script text in it before
    running anything. *)
Lemma PostProcess_inline_success (p : ShellPostProcessor Ctx) ui (artifact : A) w inline :
  Inline (config p) = Some inline ->
  r_err (PostProcess name outputPath p ui artifact w) = None ->
  exists tf w1 s1,
    host_TempFile w "" "packer-shell" = inl tf
    /\ ioutil_TempFile "" "packer-shell" w = (w1, inl tf)
    /\ write_inline_script (KeepInputArtifact (config p)) tf
         (InlineShebang (config p)) inline (mkSt w1 ui "" "") = (s1, Next tt)
    /\ fs (st_world s1) !! tf = Some (script_text (InlineShebang (config p)) inline).
Proof.
  intros Hin.
  destruct (PostProcess_unfold name outputPath p ui artifact w) as (s' & r & E & ->).
  simpl. revert E. unfold PostProcess_body. rewrite Hin.
  unfold bind at 1, os, ioutil_TempFile. simpl.
  destruct (host_TempFile w "" "packer-shell") as [tf|e]; simpl.
  - unfold defer, bind.
    destruct (write_inline_script _ tf _ inline _) as [s1 [[]|v]] eqn:EW.
    + intros _ _. exists tf, (set_fs (<[tf:=""]> (fs w)) w), s1.
      split; [done|]. split; [done|]. split; [exact EW|].
      apply write_inline_script_spec in EW as [_ Hfs]; [exact Hfs|].
      apply lookup_insert_eq.
    + apply write_inline_script_spec in EW as [_ [e ->]]; [|apply lookup_insert_eq].
      intros [= <- <-]. discriminate.
  - intros [= <- <-]. discriminate.
Qed.

(** C9. An inline list that is present with no element, without script or
    scripts, passes [Configure] when nothing else is wrong with the
    configuration; a call of [PostProcess] that then succeeds has written a
    temporary script that is the shebang line alone and has run it once for
    each file of the artifact. *)
Theorem Configure_accepts_empty_inline to so w
    (p : ShellPostProcessor Ctx) (raws : list Raw) (c : Config Ctx) :
  Decode (config p) raws = (c, None) ->
  Inline c = Some [] ->
  Script c = "" ->
  len (Scripts c) = 0 ->
  Validate (TargetPath c) (ctx c) = None ->
  snd (Render (shebang0 c) (ctx c)) = None ->
  snd (Render "" (ctx c)) = None ->
  (forall kv, In kv (elems (Vars c)) ->
     snd (Render kv (ctx c)) = None
     /\ bad_env_var (fst (Render kv (ctx c))) = false) ->
  let p' := fst (Configure to so w p raws) in
  snd (Configure to so w p raws) = None
  /\ Inline (config p') = Some []
  /\ forall (ui : list packer.UiEvent) (artifact : A) (w2 : World),
       let R := PostProcess name outputPath p' ui artifact w2 in
       r_err R = None ->
       exists tf w1 s1,
         ioutil_TempFile "" "packer-shell" w2 = (w1, inl tf)
         /\ write_inline_script (KeepInputArtifact (config p')) tf
              (InlineShebang (config p')) [] (mkSt w1 ui "" "") = (s1, Next tt)
         /\ fs (st_world s1) !! tf = Some ("#!" +:+ InlineShebang (config p') +:+ nl)
         /\ invocations w2 (r_world R)
            = map (fun art => sh_cmd (envVars_of (config p')) art tf)
                  (packer.Files artifact).
Proof.
  intros Hd Hin Hs Hl Ht Hsh Hempty Hvars p'. subst p'.
  rewrite (Configure_spec _ _ _ _ _ _ Hd). simpl.
  assert (scripts0 c = []) as Hs0.
  { unfold scripts0. rewrite Hs. simpl. unfold len in Hl.
    by destruct (elems (Scripts c)). }
  assert (all_errors to so w c = []) as ->.
  { unfold all_errors, only_one_errors, target_errors, presence_errors, env_errors.
    rewrite Hs, Ht, Hs0, Hin. simpl.
    rewrite !flat_map_nil; [done | | |].
    - intros kv [x [<- Hx]]%in_map_iff. by rewrite (proj2 (Hvars x Hx)).
    - intros k _. unfold slice_errors, slice0. destruct k; simpl.
      + by rewrite Hin.
      + by rewrite Hs0.
      + apply render_errors_nil. intros x Hx. apply (Hvars x Hx).
    - intros k _. unfold template_errors, template0. destruct k.
      + by rewrite Hsh.
      + by rewrite Hs, Hempty. }
  split; [done|]. split; [by rewrite Hin|].
  intros ui artifact w2. cbv zeta. intros Hok.
  set (p' := mkShellPostProcessor (configured c)) in *.
  assert (Inline (config p') = Some []) as Hin' by (simpl; by rewrite Hin).
  destruct (PostProcess_inline_success p' ui artifact w2 [] Hin' Hok)
    as (tf & w1 & s1 & Htf & HT & HW & Hfs).
  exists tf, w1, s1. split; [done|]. split; [done|]. split; [exact Hfs|].
  destruct (PostProcess_success name outputPath p' ui artifact w2 Hok) as (_ & _ & Hinv).
  rewrite Hinv. unfold resolved_scripts. rewrite Hin', Htf. simpl.
  rewrite Hs0. simpl. by rewrite pairs_singleton, map_map.
Qed.

End EmptyInline.

(** ** The theorems on the concrete host *)

(** C1. The artifact of a successful call does not carry the builder
    identity of the incoming artifact: [NewArtifact] is given it and drops
    it. Here the input says [mitchellh.virtualbox] and the output says
    nothing. *)
Theorem PostProcess_drops_builder_id :
  let R := run.PostProcess run.two_scripts demo.artifact in
  r_err R = None
  /\ packer.BuilderId demo.artifact = "mitchellh.virtualbox"
  /\ packer.BuilderId <$> r_artifact R = Some "".
Proof. vm_compute. done. Qed.

Lemma PostProcess_stops_at_failure_witness :
  let R := run.PostProcess run.failing demo.artifact in
  map fst (execs (r_world R)) = [sh_cmd run.env "/tmp/x.box" "/tmp/fail.sh"]
  /\ r_artifact R = None
  /\ exists msg, r_err R = Some (errorString msg) /\ contains msg "boom".
Proof.
  pose (c := sh_cmd run.env "/tmp/x.box" "/tmp/fail.sh").
  destruct (@PostProcess_stops_at_failure demo.host unit main.Artifact _
              "shell" "/tmp/out.box" (demo.pp run.failing) [] demo.artifact
              demo.world [] [] c (demo.run demo.world c))
    as (_ & Ha & Hm).
  - vm_compute. reflexivity.
  - vm_compute. discriminate.
  - split; [vm_compute; reflexivity|]. split; [exact Ha | exact Hm].
Defined.

Lemma PostProcess_removes_inline_script_witness :
  fs (r_world (run.PostProcess run.inline_ab demo.artifact)) !! demo.tmp = None.
Proof.
  apply (@PostProcess_removes_inline_script demo.host unit main.Artifact _
           "shell" "/tmp/out.box" (demo.pp run.inline_ab) [] demo.artifact
           demo.world ["echo a"; "echo b"] demo.tmp); reflexivity.
Defined.

Lemma PostProcess_invocations_file_major_witness :
  let R := run.PostProcess run.two_scripts demo.artifact in
  invocations demo.world (r_world R)
  = [sh_cmd run.env "/tmp/x.box" "/tmp/s1.sh"; sh_cmd run.env "/tmp/x.box" "/tmp/s2.sh";
     sh_cmd run.env "/tmp/y.box" "/tmp/s1.sh"; sh_cmd run.env "/tmp/y.box" "/tmp/s2.sh"]
  /\ length (invocations demo.world (r_world R)) = 2 * 2.
Proof.
  pose proof (@PostProcess_invocations_file_major demo.host unit main.Artifact _
                "shell" "/tmp/out.box" (demo.pp run.two_scripts) [] demo.artifact
                demo.world) as Hthm.
  vm_compute in Hthm |- *. apply Hthm. reflexivity.
Defined.

Lemma inline_script_content_witness :
  exists s',
    write_inline_script (H := demo.host) true demo.tmp "/bin/sh" ["echo a"; "echo b"]
      (mkSt (set_fs (<[demo.tmp := ""]> (fs demo.world)) demo.world) [] "" "")
    = (s', Next tt)
    /\ fs (st_world s') !! demo.tmp
       = Some ("#!/bin/sh" +:+ nl +:+ "echo a" +:+ nl +:+ "echo b" +:+ nl).
Proof.
  eexists. split; [vm_compute; reflexivity|].
  apply (@inline_script_content demo.host true demo.world
           (set_fs (<[demo.tmp := ""]> (fs demo.world)) demo.world)
           demo.tmp "/bin/sh" ["echo a"; "echo b"] [] "" "").
  - reflexivity.
  - vm_compute. reflexivity.
Defined.

Lemma Destroy_removes_file_witness :
  let a := NewArtifact "shell" "mitchellh.virtualbox" "/tmp/x.box" in
  let w' := fst (packer.Destroy a demo.world) in
  snd (packer.Destroy a demo.world) = None
  /\ fs w' !! "/tmp/x.box" = None
  /\ fs w' !! "/tmp/y.box" = Some "y".
Proof.
  intros a w'.
  destruct (Destroy_removes_file a demo.world w') as (_ & Hgone & Hother).
  - vm_compute. reflexivity.
  - split; [vm_compute; reflexivity|]. split; [exact Hgone|].
    rewrite Hother; [reflexivity | discriminate].
Defined.

Lemma PostProcess_keep_and_nil_on_error_witness :
  let R := run.PostProcess run.failing demo.artifact in
  r_keep R = true /\ r_err R <> None /\ r_artifact R = None.
Proof.
  intros R.
  destruct (@PostProcess_keep_and_nil_on_error demo.host unit main.Artifact _
              "shell" "/tmp/out.box" (demo.pp run.failing) [] demo.artifact
              demo.world) as [Hkeep Hnil].
  assert (r_err R <> None) as Herr by (vm_compute; discriminate).
  split; [exact Hkeep|]. split; [exact Herr | exact (Hnil Herr)].
Defined.

Lemma Configure_reports_every_violation_witness :
  let r := snd (run.Configure run.both) in
  reported r only_one_error /\ reported r (env_error "=foo").
Proof.
  destruct (@Configure_reports_every_violation unit (Config unit)
              demo.interpolate demo.decoder shebang_script inline_scripts_vars
              demo.world (demo.pp (demo.cfg None "" None None)) [run.both] run.both
              eq_refl)
    as (Hone & _ & _ & _ & _ & _ & _ & Henv).
  split.
  - apply Hone; [discriminate | vm_compute; lia].
  - apply Henv; [simpl; tauto | reflexivity].
Defined.

Lemma Configure_script_and_scripts_witness :
  exists errs,
    snd (run.Configure run.both) = Some (MultiError errs)
    /\ In (errorString "Only one of script or scripts can be specified.") errs.
Proof.
  apply (@Configure_script_and_scripts unit (Config unit)
           demo.interpolate demo.decoder shebang_script inline_scripts_vars
           demo.world (demo.pp (demo.cfg None "" None None)) [run.both] run.both).
  - reflexivity.
  - discriminate.
  - vm_compute. lia.
Defined.

Lemma Configure_accepts_empty_inline_witness :
  let p' := fst (run.Configure run.empty_inline) in
  snd (run.Configure run.empty_inline) = None
  /\ exists tf,
       invocations demo.world
         (r_world (@PostProcess demo.host unit "shell" "/tmp/out.box" main.Artifact _
                     p' [] demo.artifact demo.world))
       = map (fun art => sh_cmd (envVars_of (config p')) art tf)
             ["/tmp/x.box"; "/tmp/y.box"].
Proof.
  destruct (@Configure_accepts_empty_inline unit (Config unit)
              demo.interpolate demo.decoder demo.host main.Artifact _
              "shell" "/tmp/out.box" shebang_script inline_scripts_vars
              demo.world (demo.pp (demo.cfg None "" None None))
              [run.empty_inline] run.empty_inline)
    as (Hnone & _ & Hrun); try reflexivity.
  - intros kv [<-|[]]. split; reflexivity.
  - split; [exact Hnone|].
    destruct (Hrun [] demo.artifact demo.world) as (tf & _ & _ & _ & _ & _ & Hinv).
    + vm_compute. reflexivity.
    + exists tf. exact Hinv.
Defined.

(** * Further properties *)

(** ** The format of environment variables *)

Lemma cut_None sep s :
  cut sep s = None -> forall pre post, s <> pre +:+ String sep post.
Proof.
  induction s as [|c s IH]; simpl.
  - intros _ [|x pre] post; discriminate.
  - destruct (Ascii.eqb_spec c sep) as [->|Hne]; [discriminate|].
    destruct (cut sep s) as [[a b]|] eqn:E; [discriminate|].
    intros _ [|x pre] post.
    + intros [= -> _]. done.
    + intros [= _ Hs]. by apply (IH eq_refl pre post).
Qed.

Lemma cut_Some_nil sep s b :
  cut sep s = Some ("", b) -> s = String sep b.
Proof.
  destruct s as [|c s]; simpl; [done|].
  destruct (Ascii.eqb_spec c sep) as [->|Hne].
  - by intros [= ->].
  - by destruct (cut sep s) as [[a' b']|].
Qed.

Lemma cut_head sep c s a b :
  cut sep (String c s) = Some (a, b) -> c <> sep -> a <> "".
Proof.
  simpl. destruct (Ascii.eqb_spec c sep) as [->|Hne]; [done|].
  destruct (cut sep s) as [[a' b']|]; [|done]. by intros [= <- <-] _.
Qed.

(** X6. The check on an environment variable passes exactly the strings
    that contain [=] and do not begin with it. *)
Theorem bad_env_var_accepts (kv : string) :
  bad_env_var kv = false <->
  contains kv "=" /\ (forall rest, kv <> String "="%char rest).
Proof.
  rewrite bad_env_var_false. split.
  - intros (key & value & Hkey & Hcut). split.
    + exists key, value. by apply cut_Some.
    + intros rest ->. simpl in Hcut. by injection Hcut as <- _.
  - intros [(pre & post & Hkv) Hfirst].
    destruct (cut "=" kv) as [[a b]|] eqn:E.
    + exists a, b. split; [|done]. intros ->.
      apply cut_Some_nil in E. by apply (Hfirst b).
    + exfalso. by apply (cut_None _ _ E pre post).
Qed.

(** ** More on [Configure] *)

Lemma flat_map_nil_inv {X Y : Type} (f : X -> list Y) (l : list X) :
  flat_map f l = [] -> forall x, In x l -> f x = [].
Proof.
  induction l as [|y l IH]; simpl; [done|].
  intros [Hy Hl]%app_nil x [<-|Hx]; [done | by apply IH].
Qed.

Lemma templates_keys_Permutation to to' : templates_keys to ≡ₚ templates_keys to'.
Proof. destruct to, to'; simpl; first [reflexivity | apply perm_swap]. Qed.

Lemma slices_keys_canonical so :
  slices_keys so ≡ₚ [k_inline; k_scripts; k_environment_vars].
Proof.
  destruct so; simpl.
  - reflexivity.
  - apply perm_skip, perm_swap.
  - apply perm_swap.
  - etrans; [apply perm_skip, perm_swap | apply perm_swap].
  - etrans; [apply perm_swap | apply perm_skip, perm_swap].
  - etrans; [apply perm_swap|]. etrans; [apply perm_skip, perm_swap|].
    apply perm_swap.
Qed.

Section ConfigureFurther.

Context {Ctx Raw : Type} `{!Interpolate Ctx} `{!Decoder Raw Ctx}.

Lemma render_errors_inv n i (l : list string) (cx : Ctx) e :
  In e (render_errors n i l cx) ->
  exists j elem m,
    l !! j = Some elem /\ snd (Render elem cx) = Some m /\ e = slice_error n (i + j) m.
Proof.
  revert i. induction l as [|x l IH]; intros i; simpl; [done|].
  intros [Hx|Hl]%in_app_iff.
  - destruct (snd (Render x cx)) as [m|] eqn:Em; [|done].
    destruct Hx as [<-|[]]. exists 0, x, m. by rewrite Nat.add_0_r.
  - apply IH in Hl as (j & elem & m & Hj & Hm & ->).
    exists (S j), elem, m. split; [done|]. split; [done|]. f_equal. lia.
Qed.

Lemma Configure_errors to so w (p : ShellPostProcessor Ctx) (raws : list Raw) c errs :
  Decode (config p) raws = (c, None) ->
  snd (Configure to so w p raws) = Some (MultiError errs) ->
  errs = all_errors to so w c.
Proof.
  intros Hd. rewrite (Configure_spec _ _ _ _ _ _ Hd). simpl.
  destruct (all_errors to so w c); [done|]. by intros [= <-].
Qed.

Lemma Configure_None to so w (p : ShellPostProcessor Ctx) (raws : list Raw) :
  snd (Configure to so w p raws) = None ->
  exists c, Decode (config p) raws = (c, None) /\ all_errors to so w c = [].
Proof.
  destruct (Decode (config p) raws) as [c [e|]] eqn:Hd.
  - unfold Configure. by rewrite Hd.
  - rewrite (Configure_spec _ _ _ _ _ _ Hd). simpl.
    destruct (all_errors to so w c) eqn:E; [|done]. intros _. by exists c.
Qed.

(** X1. Every entry of the aggregate error [Configure] returns after a
    successful decoding is the error of a rule that the configuration does
    violate: nothing is reported without cause. *)
Theorem Configure_reports_only_violations to so w
    (p : ShellPostProcessor Ctx) (raws : list Raw) (c : Config Ctx) (e : error) :
  Decode (config p) raws = (c, None) ->
  reported (snd (Configure to so w p raws)) e ->
  (e = only_one_error /\ Script c <> "" /\ 0 < len (Scripts c))
  \/ (exists m, e = target_error m /\ Validate (TargetPath c) (ctx c) = Some m)
  \/ (exists k m,
        e = template_error k m /\ snd (Render (template0 c k) (ctx c)) = Some m)
  \/ (exists k i elem m,
        e = slice_error (slice_name k) i m
        /\ elems (slice0 c k) !! i = Some elem
        /\ snd (Render elem (ctx c)) = Some m)
  \/ (e = either_error /\ scripts0 c = [] /\ Inline c = None)
  \/ (e = not_both_error /\ scripts0 c <> [] /\ Inline c <> None)
  \/ (exists path m,
        e = script_error path m
        /\ In path (rendered (ctx c) (scripts0 c))
        /\ os_Stat w path = Some m)
  \/ (exists kv,
        e = env_error kv
        /\ In kv (rendered (ctx c) (elems (Vars c)))
        /\ bad_env_var kv = true).
Proof.
  intros Hd (errs & Hr & Hin).
  rewrite (Configure_errors _ _ _ _ _ _ _ Hd Hr) in Hin. clear Hr.
  unfold all_errors in Hin. rewrite !in_app_iff in Hin.
  destruct Hin as [H1|[H2|[H3|[H4|[H5|[H6|H7]]]]]].
  - left. unfold only_one_errors in H1.
    destruct (String.eqb_spec (Script c) ""); simpl in H1; [done|].
    destruct (Nat.ltb_spec 0 (len (Scripts c))); [|done].
    by destruct H1 as [<-|[]].
  - right; left. unfold target_errors in H2.
    destruct (Validate (TargetPath c) (ctx c)) as [m|]; [|done].
    destruct H2 as [<-|[]]. by exists m.
  - do 2 right; left. apply in_flat_map in H3 as (k & _ & Hk).
    unfold template_errors in Hk.
    destruct (snd (Render (template0 c k) (ctx c))) as [m|] eqn:Em; [|done].
    destruct Hk as [<-|[]]. by exists k, m.
  - do 3 right; left. apply in_flat_map in H4 as (k & _ & Hk).
    apply render_errors_inv in Hk as (j & elem & m & Hj & Hm & ->).
    by exists k, j, elem, m.
  - unfold presence_errors in H5.
    destruct (scripts0 c) eqn:Es, (Inline c) eqn:Ei; try done;
      destruct H5 as [<-|[]].
    + do 4 right; left. done.
    + do 5 right; left. done.
  - do 6 right; left. apply in_flat_map in H6 as (path & Hp & He).
    destruct (os_Stat w path) as [m|] eqn:Em; [|done].
    destruct He as [<-|[]]. by exists path, m.
  - do 7 right. apply in_flat_map in H7 as (kv & Hkv & He).
    destruct (bad_env_var kv) eqn:Eb; [|done].
    destruct He as [<-|[]]. by exists kv.
Qed.

End ConfigureFurther.

Section ConfigureOutcome.

Context {Ctx Raw : Type} `{!Interpolate Ctx} `{!Decoder Raw Ctx}.

Lemma Configure_accepted_core to so w
    (p : ShellPostProcessor Ctx) (raws : list Raw) :
  snd (Configure to so w p raws) = None ->
  let c' := config (fst (Configure to so w p raws)) in
  is_Some (Scripts c')
  /\ is_Some (Vars c')
  /\ (len (Scripts c') = 0 <-> Inline c' <> None)
  /\ (forall path, In path (elems (Scripts c')) -> os_Stat w path = None)
  /\ (forall kv, In kv (elems (Vars c')) -> bad_env_var kv = false).
Proof.
  intros Hnone. destruct (Configure_None _ _ _ _ _ Hnone) as (c & Hd & Herrs).
  rewrite (Configure_spec _ _ _ _ _ _ Hd). simpl.
  unfold all_errors in Herrs.
  apply app_nil in Herrs as [_ Herrs]. apply app_nil in Herrs as [_ Herrs].
  apply app_nil in Herrs as [_ Herrs]. apply app_nil in Herrs as [_ Herrs].
  apply app_nil in Herrs as [Hpres Herrs]. apply app_nil in Herrs as [Hscr Henv].
  split; [by eexists|]. split; [by eexists|]. split; [|split].
  - unfold len. simpl. rewrite length_rendered. unfold presence_errors in Hpres.
    destruct (scripts0 c), (Inline c); simpl; try done.
  - intros path Hp.
    pose proof (flat_map_nil_inv _ _ Hscr path Hp) as Hx. simpl in Hx.
    by destruct (os_Stat w path).
  - intros kv Hkv.
    pose proof (flat_map_nil_inv _ _ Henv kv Hkv) as Hx. simpl in Hx.
    by destruct (bad_env_var kv).
Qed.

(** X2. A configuration [Configure] accepts is well formed: its script and
    variable lists are not nil, it has scripts or an inline list and not
    both, every script is there, and every variable is [key=value]. *)
Theorem Configure_accepted_is_well_formed to so w
    (p : ShellPostProcessor Ctx) (raws : list Raw) :
  snd (Configure to so w p raws) = None ->
  let c' := config (fst (Configure to so w p raws)) in
  is_Some (Scripts c')
  /\ is_Some (Vars c')
  /\ (len (Scripts c') = 0 <-> Inline c' <> None)
  /\ (forall path, In path (elems (Scripts c')) -> os_Stat w path = None)
  /\ (forall kv, In kv (elems (Vars c')) -> bad_env_var kv = false).
Proof. apply Configure_accepted_core. Qed.

Lemma all_errors_Permutation to so to' so' w (c : Config Ctx) :
  all_errors to so w c ≡ₚ all_errors to' so' w c.
Proof.
  unfold all_errors.
  rewrite (templates_keys_Permutation to to').
  rewrite (slices_keys_canonical so), (slices_keys_canonical so').
  reflexivity.
Qed.

(** X3. The order in which Go walks the two maps of [Configure] changes
    neither the configuration it leaves nor which errors it reports: two
    runs that differ only in these orders leave the same configuration and
    return the same entries, up to their order. *)
Theorem Configure_order_independent to so to' so' w
    (p : ShellPostProcessor Ctx) (raws : list Raw) :
  fst (Configure to so w p raws) = fst (Configure to' so' w p raws)
  /\ match snd (Configure to so w p raws), snd (Configure to' so' w p raws) with
     | None, None => True
     | Some (errorString a), Some (errorString b) => a = b
     | Some (MultiError errs), Some (MultiError errs') => errs ≡ₚ errs'
     | _, _ => False
     end.
Proof.
  destruct (Decode (config p) raws) as [c [e|]] eqn:Hd.
  - unfold Configure. by rewrite Hd.
  - rewrite !(Configure_spec _ _ _ _ _ _ Hd). simpl. split; [done|].
    pose proof (all_errors_Permutation to so to' so' w c) as HP.
    destruct (all_errors to so w c) as [|x l], (all_errors to' so' w c) as [|y l'];
      try done.
    + by apply Permutation_nil_cons in HP.
    + symmetry in HP. by apply Permutation_nil_cons in HP.
Qed.

(** X4. A non-empty [script] replaces whatever [scripts] held: after
    [Configure] the script list is that one script, rendered, whether or
    not errors are reported. *)
Theorem Configure_script_replaces_scripts to so w
    (p : ShellPostProcessor Ctx) (raws : list Raw) (c : Config Ctx) :
  Decode (config p) raws = (c, None) ->
  Script c <> "" ->
  let c' := config (fst (Configure to so w p raws)) in
  Scripts c' = Some [fst (Render (Script c) (ctx c))]
  /\ Script c' = fst (Render (Script c) (ctx c)).
Proof.
  intros Hd Hs. rewrite (Configure_spec _ _ _ _ _ _ Hd). simpl.
  unfold scripts0. apply String.eqb_neq in Hs. by rewrite Hs.
Qed.

(** X5. The shebang [Configure] leaves is the rendering of the configured
    one, or of [/bin/sh] when none was configured. *)
Theorem Configure_shebang to so w
    (p : ShellPostProcessor Ctx) (raws : list Raw) (c : Config Ctx) :
  Decode (config p) raws = (c, None) ->
  let c' := config (fst (Configure to so w p raws)) in
  (InlineShebang c = "" -> InlineShebang c' = fst (Render "/bin/sh" (ctx c)))
  /\ (InlineShebang c <> "" ->
      InlineShebang c' = fst (Render (InlineShebang c) (ctx c))).
Proof.
  intros Hd. rewrite (Configure_spec _ _ _ _ _ _ Hd). simpl. unfold shebang0.
  split.
  - intros ->. done.
  - intros Hne. apply String.eqb_neq in Hne. by rewrite Hne.
Qed.

(** X7. [Configure] touches only the template fields: the flag, the target,
    the build name and type and the context stay as decoded, the inline
    list stays nil or not, and rendering neither adds nor drops an inline
    command or a variable. *)
Theorem Configure_keeps_other_fields to so w
    (p : ShellPostProcessor Ctx) (raws : list Raw) (c : Config Ctx) :
  Decode (config p) raws = (c, None) ->
  let c' := config (fst (Configure to so w p raws)) in
  KeepInputArtifact c' = KeepInputArtifact c
  /\ TargetPath c' = TargetPath c
  /\ PackerBuildName c' = PackerBuildName c
  /\ PackerBuilderType c' = PackerBuilderType c
  /\ ctx c' = ctx c
  /\ is_nil (Inline c') = is_nil (Inline c)
  /\ len (Inline c') = len (Inline c)
  /\ len (Vars c') = len (Vars c).
Proof.
  intros Hd. rewrite (Configure_spec _ _ _ _ _ _ Hd). simpl.
  repeat split; try by destruct (Inline c).
  - unfold len. destruct (Inline c); simpl; [apply length_rendered | done].
  - unfold len. simpl. apply length_rendered.
Qed.


End ConfigureOutcome.

(** ** More on [PostProcess] *)

Lemma ran_prefix keep envVars jobs new r :
  ran keep envVars jobs new r ->
  map fst new `prefix_of` map (fun j => sh_cmd envVars j.1 j.2) jobs.
Proof.
  induction 1 as [| | |art path jobs pr new r Hok Hr IH]; simpl.
  - done.
  - apply prefix_nil.
  - apply prefix_cons, prefix_nil.
  - by apply prefix_cons.
Qed.

Lemma ran_Next_ok keep envVars jobs new :
  ran keep envVars jobs new (Next tt) ->
  Forall (fun ev => pr_err ev.2 = None) new.
Proof.
  intros Hr. remember (Next tt) as r eqn:Er.
  induction Hr as [| | |art path jobs pr new r Hok Hr IH]; try discriminate.
  - constructor.
  - constructor; [done | by apply IH].
Qed.

Lemma ran_Return_inv keep envVars jobs new v :
  ran keep envVars jobs new (Return v) ->
  (exists e,
      v = (None, keep, Some (fmt_Errorf "Error opening shell script: " e))
      /\ Forall (fun ev => pr_err ev.2 = None) new)
  \/ (exists pre c pr,
      new = pre ++ [(c, pr)]
      /\ Forall (fun ev => pr_err ev.2 = None) pre
      /\ pr_err pr <> None
      /\ v = (None, keep,
              Some (fmt_Errorf "Unable to execute script: " (pr_stderr pr)))).
Proof.
  intros Hr. remember (Return v) as r eqn:Er.
  induction Hr as [|art path jobs e|art path jobs pr Hbad
                   |art path jobs pr new r Hok Hr IH]; try discriminate.
  - injection Er as <-. left. exists e. split; [done | constructor].
  - injection Er as <-. right. exists [], (sh_cmd envVars art path), pr.
    split; [done|]. split; [constructor|]. done.
  - destruct (IH Er) as [(e & -> & Hall)|(pre & c & pr' & -> & Hall & Hbad & ->)].
    + left. exists e. split; [done|]. by constructor.
    + right. exists ((sh_cmd envVars art path, pr) :: pre), c, pr'.
      split; [done|]. split; [by constructor|]. done.
Qed.

Section PostProcessFurther.

Context `{!Host} {Ctx : Type}.
Context {A : Type} `{!packer.Artifact A}.

Variables name outputPath : string.

Lemma PostProcess_new_execs (p : ShellPostProcessor Ctx) ui (artifact : A) w new :
  execs (r_world (PostProcess name outputPath p ui artifact w)) = execs w ++ new ->
  new_execs w (r_world (PostProcess name outputPath p ui artifact w)) = new.
Proof. intros Hex. unfold new_execs. by rewrite Hex, drop_app_length. Qed.

(** X9. Whatever the outcome of a call, the commands it has run are the
    first ones of the file-major list of [/bin/sh script file] with the
    assembled environment, in that order, and the record the world had
    before is kept. *)
Theorem PostProcess_invocations_prefix
    (p : ShellPostProcessor Ctx) (ui : list packer.UiEvent) (artifact : A)
    (w : World) :
  let R := PostProcess name outputPath p ui artifact w in
  execs (r_world R) = execs w ++ new_execs w (r_world R)
  /\ invocations w (r_world R)
     `prefix_of`
     flat_map (fun art =>
       map (fun path => sh_cmd (envVars_of (config p)) art path)
           (resolved_scripts p w)) (packer.Files artifact).
Proof.
  intros R. subst R.
  destruct (PostProcess_ran name outputPath p ui artifact w)
    as (new & Hex & Hcases).
  rewrite (PostProcess_new_execs _ _ _ _ _ Hex). split; [done|].
  unfold invocations. rewrite Hex, drop_app_length.
  destruct Hcases as [(-> & _)|(rr & Hran & _)]; [apply prefix_nil|].
  rewrite <- (map_pairs (sh_cmd (envVars_of (config p)))).
  exact (ran_prefix _ _ _ _ _ Hran).
Qed.

(** X10. An error of [PostProcess] is of one of three kinds. It says the
    inline script could not be prepared, and then nothing was run; or a
    script could not be opened, and then every process run before had
    succeeded; or a process failed, and then it is the last one run, all
    before it succeeded, and the message ends with its standard error. *)
Theorem PostProcess_errors
    (p : ShellPostProcessor Ctx) (ui : list packer.UiEvent) (artifact : A)
    (w : World) (err : error) :
  let R := PostProcess name outputPath p ui artifact w in
  let new := new_execs w (r_world R) in
  r_err R = Some err ->
  (exists e, err = fmt_Errorf "Error preparing shell script: " e /\ new = [])
  \/ (exists e,
       err = fmt_Errorf "Error opening shell script: " e
       /\ Forall (fun ev => pr_err ev.2 = None) new)
  \/ (exists pre c pr,
       new = pre ++ [(c, pr)]
       /\ Forall (fun ev => pr_err ev.2 = None) pre
       /\ pr_err pr <> None
       /\ err = fmt_Errorf "Unable to execute script: " (pr_stderr pr)).
Proof.
  intros R new Herr. subst R new.
  destruct (PostProcess_ran name outputPath p ui artifact w)
    as (new & Hex & Hcases).
  rewrite (PostProcess_new_execs _ _ _ _ _ Hex).
  destruct Hcases as [(-> & e & Hv)|(rr & Hran & Hv)].
  - left. exists e. injection Hv as _ _ Hv. rewrite Hv in Herr.
    by injection Herr as <-.
  - destruct rr as [[]|v].
    + unfold success in Hv. injection Hv as _ _ Hv. congruence.
    + apply ran_Return_inv in Hran
        as [(e & -> & Hall)|(pre & c & pr & -> & Hall & Hbad & ->)];
        injection Hv as _ _ Hv; rewrite Hv in Herr; injection Herr as <-.
      * right; left. by exists e.
      * right; right. by exists pre, c, pr.
Qed.

End PostProcessFurther.

(** ** The state a call goes through *)

Section States.

Context `{!Host}.

(** One turn of the inner loop, in one equation. *)
Lemma run_script_eq keep envVars art path s :
  run_script keep envVars art path s
  = match os_Open (st_world s) path with
    | Some e =>
        (mkSt (st_world s)
              (st_ui s ++ [packer.Say ("Process with shell script: " +:+ path)])
              "" "",
         Return (None, keep, Some (fmt_Errorf "Error opening shell script: " e)))
    | None =>
        let c := sh_cmd envVars art path in
        let pr := host_Run (st_world s) c in
        (mkSt {| fs := pr_fs pr; execs := execs (st_world s) ++ [(c, pr)] |}
              (st_ui s ++ ui_of_exec (c, pr))
              (pr_stdout pr) (pr_stderr pr),
         match pr_err pr with
         | None => Next tt
         | Some _ =>
             Return (None, keep,
                     Some (fmt_Errorf "Unable to execute script: " (pr_stderr pr)))
         end)
    end.
Proof.
  unfold run_script, bind, stderr_Reset, stdout_Reset, ui_Say, ui_Message, os,
    cmd_Run, stdout_String, stderr_String, return_, ret, set_world.
  cbn [st_world st_ui st_stdout st_stderr].
  destruct (os_Open (st_world s) path) as [e|]; [done|].
  cbn [st_world st_ui st_stdout st_stderr].
  change (with_Env envVars (exec_Command "/bin/sh" [path; art]))
    with (sh_cmd envVars art path).
  destruct (pr_err (host_Run (st_world s) (sh_cmd envVars art path)));
    cbn [st_world st_ui st_stdout st_stderr];
    rewrite <- !List.app_assoc; reflexivity.
Qed.

(** The messages of a run over a list of pairs: three for every process
    run, and one more when the run stops at a script that cannot be
    opened. *)
Lemma for_each_ui keep envVars jobs s s' r :
  for_each jobs (fun j => run_script keep envVars j.1 j.2) s = (s', r) ->
  exists new tail,
    execs (st_world s') = execs (st_world s) ++ new
    /\ st_ui s' = st_ui s ++ flat_map ui_of_exec new ++ tail
    /\ match r with
       | Next _ => tail = []
       | Return v =>
           tail = []
           \/ exists path e,
               tail = [packer.Say ("Process with shell script: " +:+ path)]
               /\ v = (None, keep,
                       Some (fmt_Errorf "Error opening shell script: " e))
       end.
Proof.
  revert s. induction jobs as [|[art path] jobs IH]; intros s; simpl.
  - intros [= <- <-]. exists [], []. by rewrite !List.app_nil_r.
  - unfold bind. rewrite run_script_eq. simpl.
    destruct (os_Open (st_world s) path) as [e|].
    + intros [= <- <-].
      exists [], [packer.Say ("Process with shell script: " +:+ path)].
      split; [by rewrite List.app_nil_r|]. split; [done|].
      right. by exists path, e.
    + set (c := sh_cmd envVars art path). set (pr := host_Run (st_world s) c).
      destruct (pr_err pr).
      * intros [= <- <-]. exists [(c, pr)], [].
        split; [done|]. split; [|by left]. simpl. by rewrite ?List.app_nil_r.
      * intros Hrest. apply IH in Hrest as (new & tail & Hex & Hui & Hr).
        simpl in Hex, Hui. exists ((c, pr) :: new), tail.
        split; [by rewrite Hex, <- List.app_assoc|].
        split; [|done]. rewrite Hui. simpl. by rewrite <- !List.app_assoc.
Qed.

(** Processes that leave the file system as they found it: the loop leaves
    it as it was. *)
Lemma for_each_fs keep envVars jobs s s' r :
  (forall w' j, In j jobs ->
     pr_fs (host_Run w' (sh_cmd envVars j.1 j.2)) = fs w') ->
  for_each jobs (fun j => run_script keep envVars j.1 j.2) s = (s', r) ->
  fs (st_world s') = fs (st_world s).
Proof.
  revert s. induction jobs as [|[art path] jobs IH]; intros s Hq; simpl.
  - by intros [= <- <-].
  - unfold bind. rewrite run_script_eq. simpl.
    destruct (os_Open (st_world s) path) as [e|]; [by intros [= <- <-]|].
    pose proof (Hq (st_world s) (art, path) (or_introl eq_refl)) as Hfs.
    simpl in Hfs.
    destruct (pr_err _).
    + by intros [= <- <-].
    + intros Hrest. apply IH in Hrest; [|intros w' j Hj; apply Hq; by right].
      simpl in Hrest. congruence.
Qed.

(** If moreover they succeed and the scripts are there, the loop runs to
    its end. *)
Lemma for_each_succeeds keep envVars jobs s s' r :
  (forall w' j, In j jobs ->
     pr_fs (host_Run w' (sh_cmd envVars j.1 j.2)) = fs w'
     /\ pr_err (host_Run w' (sh_cmd envVars j.1 j.2)) = None) ->
  (forall j, In j jobs -> is_Some (fs (st_world s) !! j.2)) ->
  for_each jobs (fun j => run_script keep envVars j.1 j.2) s = (s', r) ->
  r = Next tt.
Proof.
  revert s. induction jobs as [|[art path] jobs IH]; intros s Hq Hthere; simpl.
  - by intros [= <- <-].
  - unfold bind. rewrite run_script_eq. simpl.
    destruct (Hthere (art, path) (or_introl eq_refl)) as [text Htext].
    simpl in Htext. unfold os_Open. rewrite Htext.
    destruct (Hq (st_world s) (art, path) (or_introl eq_refl)) as [Hfs Herr].
    simpl in Hfs, Herr. rewrite Herr.
    apply IH.
    + intros w' j Hj. apply Hq. by right.
    + intros j Hj. simpl. rewrite Hfs. apply Hthere. by right.
Qed.

(** Writing touches the file written and nothing else. *)
Lemma File_Write_frame path data w w' e q :
  File_Write path data w = (w', e) -> q <> path -> fs w' !! q = fs w !! q.
Proof.
  unfold File_Write. destruct (host_Write w path data) as [n [msg|]].
  - intros [= <- <-] Hq. simpl. by apply lookup_insert_ne.
  - destruct (n <? String.length data); intros [= <- <-] Hq; simpl;
      by apply lookup_insert_ne.
Qed.

Lemma Flush_frame b w b' w' e q :
  Flush b w = (b', w', e) ->
  wr_file b' = wr_file b /\ (q <> wr_file b -> fs w' !! q = fs w !! q).
Proof.
  unfold Flush. destruct (wr_err b); [by intros [= <- <- <-]|].
  destruct (wr_buf b) as [|c0 buf]; [by intros [= <- <- <-]|].
  destruct (File_Write _ _ w) as [w1 [e1|]] eqn:EW; intros [= <- <- <-];
    (split; [done|]); intros Hq; by apply (File_Write_frame _ _ _ _ _ _ EW).
Qed.

Lemma WriteString_frame str b w b' w' e q :
  WriteString str b w = (b', w', e) ->
  wr_file b' = wr_file b /\ (q <> wr_file b -> fs w' !! q = fs w !! q).
Proof.
  unfold WriteString. destruct (wr_err b); [by intros [= <- <- <-]|].
  destruct (_ <=? _); [by intros [= <- <- <-]|].
  intros HF. by apply (Flush_frame _ _ _ _ _ q) in HF.
Qed.

Lemma write_commands_frame keep commands b s s' r q :
  write_commands keep commands b s = (s', r) ->
  st_ui s' = st_ui s
  /\ (q <> wr_file b -> fs (st_world s') !! q = fs (st_world s) !! q)
  /\ match r with Next b' => wr_file b' = wr_file b | Return _ => True end.
Proof.
  revert b s. induction commands as [|c rest IH]; intros b s; simpl.
  - by intros [= <- <-].
  - unfold bind, writer_WriteString, os.
    destruct (WriteString (c +:+ nl) b (st_world s)) as [[b1 w1] e1] eqn:EW.
    destruct (WriteString_frame _ _ _ _ _ _ q EW) as [Hf Hq].
    simpl. destruct e1 as [e1|].
    + by intros [= <- <-].
    + intros Hrest. apply IH in Hrest as (Hui & Hq' & Hr). simpl in Hui, Hq'.
      split; [done|]. split.
      * intros Hne. rewrite Hq' by congruence. by apply Hq.
      * destruct r; [congruence | done].
Qed.

Lemma write_inline_script_frame keep tf shebang inline s s' r q :
  write_inline_script keep tf shebang inline s = (s', r) ->
  st_ui s' = st_ui s
  /\ (q <> tf -> fs (st_world s') !! q = fs (st_world s) !! q).
Proof.
  unfold write_inline_script, bind at 1, writer_WriteString, os.
  destruct (WriteString _ (bufio_NewWriter tf) (st_world s)) as [[b1 w1] e1] eqn:EW.
  destruct (WriteString_frame _ _ _ _ _ _ q EW) as [Hf1 Hq1]. simpl in Hf1, Hq1.
  simpl. unfold bind at 1.
  destruct (write_commands keep inline b1 (set_world w1 s)) as [s2 [b2|v]] eqn:EC;
    destruct (write_commands_frame _ _ _ _ _ _ q EC) as (Hui2 & Hq2 & Hf2);
    simpl in Hui2, Hq2.
  - unfold bind, writer_Flush, os.
    destruct (Flush b2 (st_world s2)) as [[b3 w3] e3] eqn:EF.
    destruct (Flush_frame _ _ _ _ _ q EF) as [_ Hq3].
    simpl. destruct e3; intros [= <- <-]; simpl; (split; [done|]);
      intros Hne; rewrite Hq3, Hq2, Hq1; congruence.
  - intros [= <- <-]. split; [done|]. intros Hne. rewrite Hq2, Hq1; congruence.
Qed.

(** A disk that takes every write: the script is written. *)
Lemma write_inline_script_succeeds keep tf shebang inline s s' r :
  (forall w' path data, exists n,
      host_Write w' path data = (n, None) /\ String.length data <= n) ->
  write_inline_script keep tf shebang inline s = (s', r) ->
  r = Next tt.
Proof.
  intros Hdisk Hw.
  assert (forall b w b' w' e, wr_err b = None -> Flush b w = (b', w', e) ->
            e = None /\ wr_err b' = None) as HFlush.
  { intros b w b' w' e Hb. unfold Flush. rewrite Hb.
    destruct (wr_buf b); [by intros [= <- <- <-]|].
    unfold File_Write. destruct (Hdisk w (wr_file b) (String a s0)) as (n & -> & Hn).
    apply Nat.ltb_ge in Hn. rewrite Hn. by intros [= <- <- <-]. }
  assert (forall str b w b' w' e, wr_err b = None ->
            WriteString str b w = (b', w', e) -> e = None /\ wr_err b' = None)
    as HWrite.
  { intros str b w b' w' e Hb. unfold WriteString. rewrite Hb.
    destruct (_ <=? _); [by intros [= <- <- <-]|]. by apply HFlush. }
  assert (forall commands b s0 s1 r1, wr_err b = None ->
            write_commands keep commands b s0 = (s1, r1) ->
            exists b', r1 = Next b' /\ wr_err b' = None) as HCommands.
  { induction commands as [|c rest IH]; intros b s0 s1 r1 Hb; simpl.
    - intros [= <- <-]. by exists b.
    - unfold bind, writer_WriteString, os.
      destruct (WriteString (c +:+ nl) b (st_world s0)) as [[b1 w1] e1] eqn:EW.
      destruct (HWrite _ _ _ _ _ _ Hb EW) as [-> Hb1]. simpl. by apply IH. }
  revert Hw. unfold write_inline_script, bind at 1, writer_WriteString, os.
  destruct (WriteString _ (bufio_NewWriter tf) (st_world s)) as [[b1 w1] e1] eqn:EW.
  destruct (HWrite _ (bufio_NewWriter tf) _ _ _ _ eq_refl EW) as [_ Hb1].
  simpl. unfold bind at 1.
  destruct (write_commands keep inline b1 (set_world w1 s)) as [s2 r2] eqn:EC.
  destruct (HCommands _ _ _ _ _ Hb1 EC) as (b2 & -> & Hb2).
  unfold bind, writer_Flush, os.
  destruct (Flush b2 (st_world s2)) as [[b3 w3] e3] eqn:EF.
  destruct (HFlush _ _ _ _ _ Hb2 EF) as [-> _]. simpl. by intros [= <- <-].
Qed.

End States.

Lemma os_Remove_other (path q : string) (w : World) :
  q <> path -> fs (fst (os_Remove path w)) !! q = fs w !! q.
Proof.
  intros Hq. unfold os_Remove. destruct (fs w !! path); simpl; [|done].
  by apply lookup_delete_ne.
Qed.

Lemma In_pairs (files scripts : list string) (j : string * string) :
  In j (pairs files scripts) <-> In j.1 files /\ In j.2 scripts.
Proof.
  unfold pairs. rewrite in_flat_map. split.
  - intros (art & Hart & [path [<- Hpath]]%in_map_iff). done.
  - intros [Hart Hpath]. exists j.1. split; [done|].
    apply in_map_iff. exists j.2. split; [by destruct j | done].
Qed.

Lemma pairs_nil_r (files : list string) : pairs files [] = [].
Proof. unfold pairs. by induction files. Qed.

Section PostProcessStates.

Context `{!Host} {Ctx : Type}.
Context {A : Type} `{!packer.Artifact A}.

Variables name outputPath : string.

Lemma run_all_eq keep (c : Config Ctx) scripts (artifact : A) s :
  run_all name outputPath keep c scripts artifact s
  = match for_each (pairs (packer.Files artifact) scripts)
            (fun j => run_script keep (envVars_of c) j.1 j.2) s with
    | (s', Next _) =>
        (s', Return (Some (NewArtifact name (packer.BuilderId artifact) outputPath),
                     keep, None))
    | (s', Return v) => (s', Return v)
    end.
Proof. unfold run_all, bind. by rewrite for_each_nested. Qed.

(** What a call tells the [ui], against the processes it has run. *)
Lemma PostProcess_body_ui (p : ShellPostProcessor Ctx) (artifact : A) s s' r :
  PostProcess_body name outputPath p artifact s = (s', r) ->
  exists new tail,
    execs (st_world s') = execs (st_world s) ++ new
    /\ st_ui s' = st_ui s ++ flat_map ui_of_exec new ++ tail
    /\ ((value r).2 = None -> tail = []).
Proof.
  assert (forall keep (c : Config Ctx) scripts s0 s1 r1,
            run_all name outputPath keep c scripts artifact s0 = (s1, r1) ->
            exists new tail,
              execs (st_world s1) = execs (st_world s0) ++ new
              /\ st_ui s1 = st_ui s0 ++ flat_map ui_of_exec new ++ tail
              /\ ((value r1).2 = None -> tail = [])) as Hrun.
  { intros keep c scripts s0 s1 r1. rewrite run_all_eq.
    destruct (for_each _ _ s0) as [s2 rr] eqn:E.
    apply for_each_ui in E as (new & tail & Hex & Hui & Hr).
    destruct rr as [[]|v]; intros [= <- <-]; exists new, tail;
      (split; [done|]); (split; [done|]); simpl.
    - done.
    - destruct Hr as [->|(path & e & -> & ->)]; [done | discriminate]. }
  unfold PostProcess_body. destruct (Inline (config p)) as [inline|]; [|apply Hrun].
  unfold bind at 1, os, ioutil_TempFile.
  destruct (host_TempFile (st_world s) "" "packer-shell") as [tf|e].
  - unfold defer, bind.
    destruct (write_inline_script _ tf _ inline _) as [s1 [[]|v]] eqn:EW;
      pose proof EW as EW';
      apply write_inline_script_spec in EW; try apply lookup_insert_eq;
      destruct EW as [Hex1 Hr1]; simpl in Hex1;
      apply (write_inline_script_frame _ _ _ _ _ _ _ tf) in EW' as [Hui1 _];
      simpl in Hui1.
    + destruct (run_all _ _ _ _ _ _ s1) as [s2 r2] eqn:ER.
      apply Hrun in ER as (new & tail & Hex & Hui & Hr).
      intros [= <- <-]. exists new, tail. simpl. rewrite os_Remove_execs.
      split; [congruence|]. split; [congruence | done].
    + destruct Hr1 as [e ->]. intros [= <- <-]. exists [], []. simpl.
      rewrite os_Remove_execs, !List.app_nil_r. done.
  - intros [= <- <-]. exists [], []. simpl. by rewrite !List.app_nil_r.
Qed.

(** X11. A call that succeeds has told the [ui] three things for each
    process it ran, in order: the script, the file, and what that process,
    and no other, wrote to its standard output. *)
Theorem PostProcess_ui_on_success
    (p : ShellPostProcessor Ctx) (ui : list packer.UiEvent) (artifact : A)
    (w : World) :
  let R := PostProcess name outputPath p ui artifact w in
  r_err R = None ->
  r_ui R = ui ++ flat_map ui_of_exec (new_execs w (r_world R)).
Proof.
  intros R. subst R.
  destruct (PostProcess_unfold name outputPath p ui artifact w) as (s' & r & E & ->).
  simpl. intros Hok.
  apply PostProcess_body_ui in E as (new & tail & Hex & Hui & Htail).
  simpl in Hex, Hui. unfold new_execs. simpl.
  rewrite Hex, drop_app_length, Hui, (Htail Hok). by rewrite List.app_nil_r.
Qed.

(** X12. When the processes leave the file system as they find it, a call
    leaves every path as it was, except the temporary script. *)
Theorem PostProcess_fs_frame
    (p : ShellPostProcessor Ctx) (ui : list packer.UiEvent) (artifact : A)
    (w : World) (q : string) :
  (forall w' j, In j (pairs (packer.Files artifact) (resolved_scripts p w)) ->
     pr_fs (host_Run w' (sh_cmd (envVars_of (config p)) j.1 j.2)) = fs w') ->
  (forall tf, Inline (config p) <> None ->
     host_TempFile w "" "packer-shell" = inl tf -> q <> tf) ->
  fs (r_world (PostProcess name outputPath p ui artifact w)) !! q = fs w !! q.
Proof.
  intros Hq Hne.
  destruct (PostProcess_unfold name outputPath p ui artifact w) as (s' & r & E & ->).
  simpl. revert E Hq Hne. unfold PostProcess_body, resolved_scripts.
  assert (forall keep (c : Config Ctx) scripts s0 s1 r1,
            (forall w' j, In j (pairs (packer.Files artifact) scripts) ->
               pr_fs (host_Run w' (sh_cmd (envVars_of c) j.1 j.2)) = fs w') ->
            run_all name outputPath keep c scripts artifact s0 = (s1, r1) ->
            fs (st_world s1) = fs (st_world s0)) as Hrun.
  { intros keep c scripts s0 s1 r1 Hquiet. rewrite run_all_eq.
    destruct (for_each _ _ s0) as [s2 rr] eqn:E.
    apply for_each_fs in E; [|done].
    destruct rr as [[]|v]; intros [= <- <-]; done. }
  destruct (Inline (config p)) as [inline|].
  - unfold bind at 1, os, ioutil_TempFile. simpl.
    destruct (host_TempFile w "" "packer-shell") as [tf|e]; simpl.
    + intros E Hq Hne. specialize (Hne tf ltac:(done) eq_refl).
      revert E. unfold defer, bind.
      destruct (write_inline_script _ tf _ inline _) as [s1 [[]|v]] eqn:EW;
        apply (write_inline_script_frame _ _ _ _ _ _ _ q) in EW as [_ Hfs1];
        specialize (Hfs1 Hne); simpl in Hfs1;
        rewrite lookup_insert_ne in Hfs1 by done.
      * destruct (run_all _ _ _ _ _ _ s1) as [s2 r2] eqn:ER.
        apply Hrun in ER; [|done]. intros [= <- <-]. simpl.
        rewrite os_Remove_other by done. congruence.
      * intros [= <- <-]. simpl. by rewrite os_Remove_other.
    + by intros [= <- <-] _ _.
  - rewrite List.app_nil_r. intros E Hq _. apply Hrun in E; [|done].
    simpl in E. by rewrite E.
Qed.

Lemma PostProcess_succeeds_core
    (p : ShellPostProcessor Ctx) (ui : list packer.UiEvent) (artifact : A)
    (w : World) :
  (forall w' j, In j (pairs (packer.Files artifact) (resolved_scripts p w)) ->
     pr_fs (host_Run w' (sh_cmd (envVars_of (config p)) j.1 j.2)) = fs w'
     /\ pr_err (host_Run w' (sh_cmd (envVars_of (config p)) j.1 j.2)) = None) ->
  (forall path, In path (elems (Scripts (config p))) -> is_Some (fs w !! path)) ->
  (forall w' path data, exists n,
      host_Write w' path data = (n, None) /\ String.length data <= n) ->
  (Inline (config p) <> None ->
     exists tf, host_TempFile w "" "packer-shell" = inl tf) ->
  r_err (PostProcess name outputPath p ui artifact w) = None.
Proof.
  intros Hproc Hthere Hdisk Htmp.
  destruct (PostProcess_unfold name outputPath p ui artifact w) as (s' & r & E & ->).
  simpl. revert E Hproc Htmp. unfold PostProcess_body, resolved_scripts.
  assert (forall keep (c : Config Ctx) scripts s0 s1 r1,
            (forall w' j, In j (pairs (packer.Files artifact) scripts) ->
               pr_fs (host_Run w' (sh_cmd (envVars_of c) j.1 j.2)) = fs w'
               /\ pr_err (host_Run w' (sh_cmd (envVars_of c) j.1 j.2)) = None) ->
            (forall path, In path scripts -> is_Some (fs (st_world s0) !! path)) ->
            run_all name outputPath keep c scripts artifact s0 = (s1, r1) ->
            (value r1).2 = None) as Hrun.
  { intros keep c scripts s0 s1 r1 Hok Hsc. rewrite run_all_eq.
    destruct (for_each _ _ s0) as [s2 rr] eqn:E.
    apply for_each_succeeds in E; [| done |].
    - subst rr. by intros [= <- <-].
    - intros j Hj. apply Hsc. by apply In_pairs in Hj as [_ ?]. }
  destruct (Inline (config p)) as [inline|].
  - intros E Hproc Htmp. destruct (Htmp ltac:(done)) as [tf Htf].
    revert E Hproc. unfold bind at 1, os, ioutil_TempFile. simpl. rewrite Htf.
    simpl. unfold defer, bind.
    destruct (write_inline_script _ tf _ inline _) as [s1 r1] eqn:EW.
    pose proof (write_inline_script_succeeds _ _ _ _ _ _ _ Hdisk EW) as ->.
    pose proof EW as EW'.
    apply write_inline_script_spec in EW' as [_ Htext]; [|apply lookup_insert_eq].
    destruct (run_all _ _ _ _ _ _ s1) as [s2 r2] eqn:ER.
    intros [= <- <-] Hproc. apply Hrun in ER; [done | done |].
    intros path [Hp|[<-|[]]]%in_app_iff.
    + destruct (decide (path = tf)) as [->|Hne]; [by rewrite Htext|].
      apply (write_inline_script_frame _ _ _ _ _ _ _ path) in EW as [_ Hfs].
      rewrite (Hfs Hne). simpl. rewrite lookup_insert_ne by done. by apply Hthere.
    + by rewrite Htext.
  - rewrite List.app_nil_r. intros E Hproc _. by apply Hrun in E.
Qed.

(** X13. A call succeeds when the configured scripts are there, the
    temporary file can be created and written if inline commands are
    configured, and the processes succeed without changing the file
    system. *)
Theorem PostProcess_succeeds
    (p : ShellPostProcessor Ctx) (ui : list packer.UiEvent) (artifact : A)
    (w : World) :
  (forall w' j, In j (pairs (packer.Files artifact) (resolved_scripts p w)) ->
     pr_fs (host_Run w' (sh_cmd (envVars_of (config p)) j.1 j.2)) = fs w'
     /\ pr_err (host_Run w' (sh_cmd (envVars_of (config p)) j.1 j.2)) = None) ->
  (forall path, In path (elems (Scripts (config p))) -> is_Some (fs w !! path)) ->
  (forall w' path data, exists n,
      host_Write w' path data = (n, None) /\ String.length data <= n) ->
  (Inline (config p) <> None ->
     exists tf, host_TempFile w "" "packer-shell" = inl tf) ->
  r_err (PostProcess name outputPath p ui artifact w) = None.
Proof. apply PostProcess_succeeds_core. Qed.


(** X15. Without inline commands, a call on an artifact with no file, or
    with no script configured, runs nothing and succeeds at once: same
    world, nothing said to the [ui], and the new artifact returned. *)
Theorem PostProcess_nothing_to_run
    (p : ShellPostProcessor Ctx) (ui : list packer.UiEvent) (artifact : A)
    (w : World) :
  Inline (config p) = None ->
  packer.Files artifact = [] \/ elems (Scripts (config p)) = [] ->
  PostProcess name outputPath p ui artifact w
  = mkResult (Some (NewArtifact name (packer.BuilderId artifact) outputPath))
             (KeepInputArtifact (config p)) None w ui.
Proof.
  intros Hin Hempty. unfold PostProcess, PostProcess_body. rewrite Hin.
  rewrite run_all_eq.
  assert (pairs (packer.Files artifact) (elems (Scripts (config p))) = []) as ->.
  { destruct Hempty as [-> | ->]; [done | apply pairs_nil_r]. }
  simpl. by destruct w.
Qed.

(** X16. The artifact of a successful call has one file, the output path,
    whatever files the incoming artifact had; its identifier is the
    provider name, and destroying it removes the output path. *)
Theorem PostProcess_output_artifact
    (p : ShellPostProcessor Ctx) (ui : list packer.UiEvent) (artifact : A)
    (w : World) :
  r_err (PostProcess name outputPath p ui artifact w) = None ->
  exists a,
    r_artifact (PostProcess name outputPath p ui artifact w) = Some a
    /\ packer.Files a = [outputPath]
    /\ packer.Id a = name
    /\ packer.String' a = "'" +:+ name +:+ "' provider box: " +:+ outputPath
    /\ forall w', packer.Destroy a w' = os_Remove outputPath w'.
Proof.
  intros Hok.
  destruct (PostProcess_success name outputPath p ui artifact w Hok) as [Ha _].
  eexists. split; [exact Ha|]. done.
Qed.

End PostProcessStates.

(** ** Failing disk, and [Configure] followed by [PostProcess] *)

Section DiskFull.

Context `{!Host}.

Variable e : string.
Hypothesis disk_full :
  forall w' path data, exists n, host_Write w' path data = (n, Some e).

Lemma Flush_stuck b w b' w' e' :
  stuck e b -> Flush b w = (b', w', e') -> e' = Some e /\ stuck e b'.
Proof.
  unfold Flush. intros [[Hb Hbuf]|Hb]; rewrite Hb.
  - destruct (wr_buf b) as [|c0 buf]; [done|].
    unfold File_Write. destruct (disk_full w (wr_file b) (String c0 buf)) as [n ->].
    intros [= <- <- <-]. split; [done | by right].
  - intros [= <- <- <-]. split; [done | by right].
Qed.

Lemma WriteString_stuck str b w b' w' e' :
  stuck e b \/ (wr_err b = None /\ str <> "") ->
  WriteString str b w = (b', w', e') -> stuck e b'.
Proof.
  unfold WriteString. intros Hb.
  destruct (wr_err b) as [e0|] eqn:Eerr.
  - intros [= <- <- <-]. destruct Hb as [[[? _]|?]|[? _]]; try congruence.
    by right.
  - assert (wr_buf b +:+ str <> "") as Hne.
    { destruct Hb as [[[_ Hbuf]|?]|[_ Hstr]]; [|congruence|].
      - by destruct (wr_buf b).
      - destruct (wr_buf b); [done | discriminate]. }
    destruct (_ <=? _).
    + intros [= <- <- <-]. by left.
    + intros HF. apply Flush_stuck in HF as [_ ?]; [done|]. by left.
Qed.

Lemma write_commands_stuck keep commands b s s' r :
  stuck e b ->
  write_commands keep commands b s = (s', r) ->
  match r with
  | Next b' => stuck e b'
  | Return v =>
      v = (None, keep, Some (fmt_Errorf "Error preparing shell script: " e))
  end.
Proof.
  revert b s. induction commands as [|c rest IH]; intros b s Hb; simpl.
  - by intros [= <- <-].
  - unfold bind, writer_WriteString, os.
    destruct (WriteString (c +:+ nl) b (st_world s)) as [[b1 w1] e1] eqn:EW.
    pose proof (WriteString_stuck _ _ _ _ _ _ (or_introl Hb) EW) as Hb1.
    simpl. destruct e1 as [e1|].
    + intros [= <- <-]. f_equal. f_equal. f_equal.
      revert EW. unfold WriteString.
      destruct Hb as [[Hb Hbuf]|Hb]; rewrite Hb.
      * destruct (_ <=? _); [discriminate|]. intros HF.
        apply Flush_stuck in HF as [[= ->] _]; [done|]. left. split; [done|].
        simpl. by destruct (wr_buf b).
      * by intros [= _ _ ->].
    + by apply IH.
Qed.

Lemma write_inline_script_disk_full keep tf shebang inline s s' r :
  write_inline_script keep tf shebang inline s = (s', r) ->
  r = Return (None, keep, Some (fmt_Errorf "Error preparing shell script: " e)).
Proof.
  unfold write_inline_script, bind at 1, writer_WriteString, os.
  destruct (WriteString _ (bufio_NewWriter tf) (st_world s)) as [[b1 w1] e1] eqn:EW.
  assert ("#!" +:+ shebang +:+ nl <> "") as Hline by done.
  assert (stuck e b1) as Hb1.
  { apply (WriteString_stuck _ (bufio_NewWriter tf) _ _ _ _
             (or_intror (conj eq_refl Hline)) EW). }
  simpl. unfold bind at 1.
  destruct (write_commands keep inline b1 (set_world w1 s)) as [s2 [b2|v]] eqn:EC;
    pose proof (write_commands_stuck _ _ _ _ _ _ Hb1 EC) as Hr.
  - unfold bind, writer_Flush, os.
    destruct (Flush b2 (st_world s2)) as [[b3 w3] e3] eqn:EF.
    apply Flush_stuck in EF as [-> _]; [|done]. simpl. by intros [= <- <-].
  - simpl in Hr. rewrite Hr. by intros [= <- <-].
Qed.

End DiskFull.

Section Composition.

Context {Ctx Raw : Type} `{!Interpolate Ctx} `{!Decoder Raw Ctx} `{!Host}.
Context {A : Type} `{!packer.Artifact A}.

Variables name outputPath : string.

(** X18. When the disk takes no write, a call with inline commands returns
    the preparation error with the message of the system, has run no
    process and has said nothing to the [ui]. *)
Theorem PostProcess_disk_full
    (p : ShellPostProcessor Ctx) (ui : list packer.UiEvent) (artifact : A)
    (w : World) (inline : list string) (tf e : string) :
  Inline (config p) = Some inline ->
  host_TempFile w "" "packer-shell" = inl tf ->
  (forall w' path data, exists n, host_Write w' path data = (n, Some e)) ->
  let R := PostProcess name outputPath p ui artifact w in
  r_err R = Some (errorString ("Error preparing shell script: " +:+ e))
  /\ r_artifact R = None
  /\ new_execs w (r_world R) = []
  /\ r_ui R = ui.
Proof.
  intros Hin Htf Hdisk R. subst R.
  destruct (PostProcess_unfold name outputPath p ui artifact w) as (s' & r & E & ->).
  simpl. revert E. unfold PostProcess_body. rewrite Hin.
  unfold bind at 1, os, ioutil_TempFile. simpl. rewrite Htf. simpl.
  unfold defer, bind.
  destruct (write_inline_script _ tf _ inline _) as [s1 r1] eqn:EW.
  pose proof (write_inline_script_disk_full e Hdisk _ _ _ _ _ _ _ EW) as ->.
  pose proof EW as EW'.
  apply write_inline_script_spec in EW' as [Hex _]; [|apply lookup_insert_eq].
  apply (write_inline_script_frame _ _ _ _ _ _ _ tf) in EW as [Hui _].
  simpl in Hex, Hui. intros [= <- <-]. simpl.
  split; [done|]. split; [done|]. split; [|done].
  unfold new_execs. simpl. rewrite os_Remove_execs, Hex. apply drop_all.
Qed.


End Composition.

(** ** The wrapper of package [main] *)


(** ** The further theorems on concrete hosts *)

Lemma Configure_reports_only_violations_witness :
  let c := run.both in
  let e := only_one_error in
  (e = only_one_error /\ Script c <> "" /\ 0 < len (Scripts c))
  \/ (exists m, e = target_error m
        /\ Validate (Interpolate := demo.interpolate) (TargetPath c) (ctx c) = Some m)
  \/ (exists k m,
        e = template_error k m
        /\ snd (Render (Interpolate := demo.interpolate) (template0 c k) (ctx c)) = Some m)
  \/ (exists k i elem m,
        e = slice_error (slice_name k) i m
        /\ elems (slice0 c k) !! i = Some elem
        /\ snd (Render (Interpolate := demo.interpolate) elem (ctx c)) = Some m)
  \/ (e = either_error /\ scripts0 c = [] /\ Inline c = None)
  \/ (e = not_both_error /\ scripts0 c <> [] /\ Inline c <> None)
  \/ (exists path m,
        e = script_error path m
        /\ In path (rendered (Interpolate0 := demo.interpolate) (ctx c) (scripts0 c))
        /\ os_Stat demo.world path = Some m)
  \/ (exists kv,
        e = env_error kv
        /\ In kv (rendered (Interpolate0 := demo.interpolate) (ctx c) (elems (Vars c)))
        /\ bad_env_var kv = true).
Proof.
  apply (@Configure_reports_only_violations unit (Config unit)
           demo.interpolate demo.decoder shebang_script inline_scripts_vars
           demo.world (demo.pp (demo.cfg None "" None None)) [run.both]).
  - reflexivity.
  - eexists. split; [vm_compute; reflexivity|]. simpl. tauto.
Defined.

Lemma Configure_accepted_is_well_formed_witness :
  let c' := config (fst (run.Configure edge.valid)) in
  snd (run.Configure edge.valid) = None
  /\ Scripts c' = Some ["/tmp/s1.sh"; "/tmp/s2.sh"]
  /\ (len (Scripts c') = 0 <-> Inline c' <> None)
  /\ (forall kv, In kv (elems (Vars c')) -> bad_env_var kv = false).
Proof.
  assert (snd (run.Configure edge.valid) = None) as Hnone by (vm_compute; reflexivity).
  destruct (@Configure_accepted_is_well_formed unit (Config unit)
              demo.interpolate demo.decoder shebang_script inline_scripts_vars
              demo.world (demo.pp (demo.cfg None "" None None)) [edge.valid] Hnone)
    as (_ & _ & Hone & _ & Henv).
  split; [exact Hnone|]. split; [vm_compute; reflexivity|].
  split; [exact Hone | exact Henv].
Defined.

Lemma Configure_script_replaces_scripts_witness :
  let c' := config (fst (run.Configure edge.single)) in
  Scripts c' = Some ["/tmp/s1.sh"] /\ Script c' = "/tmp/s1.sh".
Proof.
  apply (@Configure_script_replaces_scripts unit (Config unit)
           demo.interpolate demo.decoder shebang_script inline_scripts_vars
           demo.world (demo.pp (demo.cfg None "" None None)) [edge.single]
           edge.single).
  - reflexivity.
  - discriminate.
Defined.

Lemma Configure_shebang_witness :
  InlineShebang (config (fst (run.Configure edge.valid))) = "/bin/sh".
Proof.
  destruct (@Configure_shebang unit (Config unit)
              demo.interpolate demo.decoder shebang_script inline_scripts_vars
              demo.world (demo.pp (demo.cfg None "" None None)) [edge.valid]
              edge.valid eq_refl) as [Hdefault _].
  exact (Hdefault eq_refl).
Defined.

Lemma Configure_keeps_other_fields_witness :
  let c' := config (fst (run.Configure run.inline_ab)) in
  KeepInputArtifact c' = true /\ len (Inline c') = 2 /\ len (Vars c') = 0.
Proof.
  destruct (@Configure_keeps_other_fields unit (Config unit)
              demo.interpolate demo.decoder shebang_script inline_scripts_vars
              demo.world (demo.pp (demo.cfg None "" None None)) [run.inline_ab]
              run.inline_ab eq_refl) as (Hk & _ & _ & _ & _ & _ & Hi & Hv).
  split; [exact Hk|]. split; [exact Hi | exact Hv].
Defined.


Lemma PostProcess_errors_witness :
  let R := run.PostProcess run.failing demo.artifact in
  let new := new_execs demo.world (r_world R) in
  let err := errorString "Unable to execute script: boom" in
  (exists e, err = fmt_Errorf "Error preparing shell script: " e /\ new = [])
  \/ (exists e,
       err = fmt_Errorf "Error opening shell script: " e
       /\ Forall (fun ev => pr_err ev.2 = None) new)
  \/ (exists pre c pr,
       new = pre ++ [(c, pr)]
       /\ Forall (fun ev => pr_err ev.2 = None) pre
       /\ pr_err pr <> None
       /\ err = fmt_Errorf "Unable to execute script: " (pr_stderr pr)).
Proof.
  apply (@PostProcess_errors demo.host unit main.Artifact _
           "shell" "/tmp/out.box" (demo.pp run.failing) [] demo.artifact
           demo.world).
  vm_compute. reflexivity.
Defined.

Lemma PostProcess_ui_on_success_witness :
  r_ui (run.PostProcess run.two_scripts edge.no_files) = []
  /\ r_ui (run.PostProcess run.two_scripts demo.one_file)
     = [packer.Say "Process with shell script: /tmp/s1.sh";
        packer.Message "Executing script with artifact: /tmp/x.box";
        packer.Message "";
        packer.Say "Process with shell script: /tmp/s2.sh";
        packer.Message "Executing script with artifact: /tmp/x.box";
        packer.Message ""].
Proof.
  split.
  - vm_compute. reflexivity.
  - pose proof (@PostProcess_ui_on_success demo.host unit main.Artifact _
                  "shell" "/tmp/out.box" (demo.pp run.two_scripts) []
                  demo.one_file demo.world) as Hthm.
    vm_compute in Hthm |- *. apply Hthm. reflexivity.
Defined.

Lemma demo_run_fs (w : World) (c : Cmd) : pr_fs (demo.run w c) = fs w.
Proof. unfold demo.run. by destruct (bool_decide _). Defined.

Lemma PostProcess_fs_frame_witness :
  fs (r_world (run.PostProcess run.inline_ab demo.artifact)) !! "/tmp/x.box"
  = Some "x".
Proof.
  unfold run.PostProcess.
  rewrite (@PostProcess_fs_frame demo.host unit main.Artifact _
             "shell" "/tmp/out.box" (demo.pp run.inline_ab) [] demo.artifact
             demo.world "/tmp/x.box").
  - reflexivity.
  - intros w' j _. apply demo_run_fs.
  - intros tf _ [= <-]. discriminate.
Defined.

Lemma PostProcess_succeeds_witness :
  r_err (run.PostProcess run.two_scripts demo.artifact) = None.
Proof.
  apply (@PostProcess_succeeds demo.host unit main.Artifact _
           "shell" "/tmp/out.box" (demo.pp run.two_scripts) [] demo.artifact
           demo.world).
  - intros w' [art path] [_ Hs]%In_pairs. split; [apply demo_run_fs|].
    simpl in Hs. destruct Hs as [<-|[<-|[]]]; reflexivity.
  - intros path Hp. simpl in Hp.
    destruct Hp as [<-|[<-|[]]]; eexists; vm_compute; reflexivity.
  - intros w' path data. exists (String.length data). split; [reflexivity | lia].
  - intros _. exists demo.tmp. reflexivity.
Defined.


Lemma PostProcess_nothing_to_run_witness :
  run.PostProcess run.two_scripts edge.no_files
  = mkResult (Some (NewArtifact "shell" "mitchellh.virtualbox" "/tmp/out.box"))
             true None demo.world []
  /\ run.PostProcess edge.nothing demo.artifact
     = mkResult (Some (NewArtifact "shell" "mitchellh.virtualbox" "/tmp/out.box"))
                true None demo.world [].
Proof.
  split.
  - apply (@PostProcess_nothing_to_run demo.host unit main.Artifact _
             "shell" "/tmp/out.box" (demo.pp run.two_scripts) [] edge.no_files
             demo.world); [reflexivity | by left].
  - apply (@PostProcess_nothing_to_run demo.host unit main.Artifact _
             "shell" "/tmp/out.box" (demo.pp edge.nothing) [] demo.artifact
             demo.world); [reflexivity | by right].
Defined.

Lemma PostProcess_output_artifact_witness :
  exists a,
    r_artifact (run.PostProcess run.two_scripts demo.artifact) = Some a
    /\ packer.Files a = ["/tmp/out.box"]
    /\ packer.Id a = "shell"
    /\ packer.String' a = "'shell' provider box: /tmp/out.box"
    /\ forall w', packer.Destroy a w' = os_Remove "/tmp/out.box" w'.
Proof.
  apply (@PostProcess_output_artifact demo.host unit main.Artifact _
           "shell" "/tmp/out.box" (demo.pp run.two_scripts) [] demo.artifact
           demo.world).
  vm_compute. reflexivity.
Defined.

Lemma PostProcess_disk_full_witness :
  let R := @PostProcess edge.full_disk unit "shell" "/tmp/out.box" main.Artifact _
             (demo.pp run.inline_ab) [] demo.artifact demo.world in
  r_err R
  = Some (errorString "Error preparing shell script: no space left on device")
  /\ r_artifact R = None
  /\ new_execs demo.world (r_world R) = []
  /\ r_ui R = [].
Proof.
  apply (@PostProcess_disk_full unit edge.full_disk main.Artifact _
           "shell" "/tmp/out.box" (demo.pp run.inline_ab) [] demo.artifact
           demo.world ["echo a"; "echo b"] demo.tmp "no space left on device").
  - reflexivity.
  - reflexivity.
  - intros w' path data. exists 0. reflexivity.
Defined.

